(** * AdministerBack: access control, allocation consistency and CSV import

    A shallow embedding of the TypeScript back office API
    (routes/transactions.ts, routes/transactions_import.ts, permissions.ts,
    db.ts and the list/detail queries of facturas, payments and
    liquidaciones), with the properties of its access-control and
    allocation core.

    JavaScript numbers are IEEE 754 binary64 values and are modelled by
    Rocq's primitive floats; PostgreSQL [numeric] values are modelled by
    rationals; a database session is a small state-and-exception monad over
    the connection state, with the statement log kept alongside. *)

From Stdlib Require Import String Ascii List Bool Arith ZArith Lia DecimalString.
From Stdlib Require Import QArith Qround Qabs Lqa.
From Stdlib Require Import Floats.
Import ListNotations.

Set Warnings "-inexact-float".

Local Open Scope string_scope.
Local Open Scope list_scope.
Local Open Scope nat_scope.

(* ================================================================== *)
(** * JavaScript strings and numbers                                   *)
(* ================================================================== *)

Module Js.

(** ** Characters and string primitives *)

Definition is_digit (c : ascii) : bool :=
  let n := nat_of_ascii c in (48 <=? n) && (n <=? 57).

(** White space removed by [String.prototype.trim], on the ASCII range:
    TAB, LF, VT, FF, CR and SPACE. Strings are sequences of bytes here;
    the white space characters beyond ASCII (no-break space and the like)
    are not recognised. *)
Definition is_space (c : ascii) : bool :=
  let n := nat_of_ascii c in ((9 <=? n) && (n <=? 13)) || (n =? 32).

Definition ascii_eqb (a b : ascii) : bool := Ascii.eqb a b.

Fixpoint filter_str (p : ascii -> bool) (s : string) : string :=
  match s with
  | EmptyString => EmptyString
  | String c r => if p c then String c (filter_str p r) else filter_str p r
  end.

Fixpoint count_char (c : ascii) (s : string) : nat :=
  match s with
  | EmptyString => 0
  | String d r => (if ascii_eqb d c then 1 else 0) + count_char c r
  end.

(** [s.includes(c)] for a one-character needle. *)
Fixpoint includes (c : ascii) (s : string) : bool :=
  match s with
  | EmptyString => false
  | String d r => ascii_eqb d c || includes c r
  end.

(** [s.replace(/c/g, '')]. *)
Definition remove_all (c : ascii) (s : string) : string :=
  filter_str (fun d => negb (ascii_eqb d c)) s.

(** [s.replace(c, d)] with a string pattern: only the first occurrence. *)
Fixpoint replace_first (c d : ascii) (s : string) : string :=
  match s with
  | EmptyString => EmptyString
  | String x r => if ascii_eqb x c then String d r else String x (replace_first c d r)
  end.

(** Every occurrence replaced. *)
Fixpoint replace_all (c d : ascii) (s : string) : string :=
  match s with
  | EmptyString => EmptyString
  | String x r => String (if ascii_eqb x c then d else x) (replace_all c d r)
  end.

(** [s.lastIndexOf(c)]: the greatest index holding [c], or -1. *)
Fixpoint lastIndexOf_from (c : ascii) (s : string) (i : Z) (found : Z) : Z :=
  match s with
  | EmptyString => found
  | String d r => lastIndexOf_from c r (i + 1) (if ascii_eqb d c then i else found)
  end.

Definition lastIndexOf (c : ascii) (s : string) : Z := lastIndexOf_from c s 0 (-1).

Fixpoint trim_start (s : string) : string :=
  match s with
  | EmptyString => EmptyString
  | String c r => if is_space c then trim_start r else s
  end.

(** Drops the trailing white space: a character is kept when it is not a
    space or when something is kept after it. *)
Fixpoint trim_end (s : string) : string :=
  match s with
  | EmptyString => EmptyString
  | String c r =>
      match trim_end r with
      | EmptyString => if is_space c then EmptyString else String c EmptyString
      | r' => String c r'
      end
  end.

Definition trim (s : string) : string := trim_end (trim_start s).

Definition is_empty (s : string) : bool :=
  match s with EmptyString => true | _ => false end.

Definition lower_ascii (c : ascii) : ascii :=
  let n := nat_of_ascii c in
  if (65 <=? n) && (n <=? 90) then ascii_of_nat (n + 32) else c.

Fixpoint toLowerCase (s : string) : string :=
  match s with
  | EmptyString => EmptyString
  | String c r => String (lower_ascii c) (toLowerCase r)
  end.

(** ** Numbers *)

Definition number := float.

(** [Math.abs(a - b) > eps], as a test on binary64 values. *)
Definition gt (a b : number) : bool := PrimFloat.ltb b a.

(** The longest prefix of decimal digits, read as a natural number,
    with its length and the rest of the string. *)
Fixpoint span_digits (s : string) (acc : N) (len : nat) : N * nat * string :=
  match s with
  | String c r =>
      if is_digit c
      then span_digits r (10 * acc + N.of_nat (nat_of_ascii c - 48))%N (S len)
      else (acc, len, s)
  | EmptyString => (acc, len, s)
  end.

(** A decimal literal [-]ddd[.ddd], [-]ddd. or [-].ddd, decomposed into
    its sign, the integer read from all its digits and the number of
    digits after the point. *)
Definition parse_decimal (s : string) : option (bool * N * nat) :=
  let '(neg, body) :=
    match s with
    | String "-" r => (true, r)
    | String "+" r => (false, r)
    | _ => (false, s)
    end in
  let '(ip, ilen, rest) := span_digits body 0 0 in
  match rest with
  | EmptyString => if ilen =? 0 then None else Some (neg, ip, 0)
  | String "." rest' =>
      let '(m, len, rest'') := span_digits rest' ip ilen in
      match rest'' with
      | EmptyString => if len =? 0 then None else Some (neg, m, len - ilen)
      | _ => None
      end
  | _ => None
  end.

Fixpoint pow10 (k : nat) : positive :=
  match k with
  | O => 1%positive
  | S k' => (10 * pow10 k')%positive
  end.

(** The binary64 value nearest to [m / 10^k] (ties to even), signed. *)
Definition decimal_to_double (neg : bool) (m : N) (k : nat) : number :=
  let num :=
    match m with
    | N0 => S754_zero neg
    | Npos p => S754_finite neg p 0
    end in
  let den := S754_finite false (pow10 k) 0 in
  SF2Prim (SFdiv prec emax num den).

(** [Number(s)] on the strings that reach it in this program, which hold
    only digits, dots, commas and minus signs: the empty string is 0, a
    decimal literal is its nearest binary64 value, anything else is NaN.
    (Exponents, hexadecimal literals, [Infinity] and surrounding white
    space need characters outside that alphabet.) *)
Definition Number (s : string) : number :=
  if is_empty s then PrimFloat.zero
  else match parse_decimal s with
       | Some (neg, m, k) => decimal_to_double neg m k
       | None => PrimFloat.nan
       end.

Definition isFinite (n : number) : bool := PrimFloat.is_finite n.

(** The values a CSV cell or a JSON field can hold, as far as the amount
    parser tells them apart. *)
Inductive value : Type :=
  | VUndefined
  | VNull
  | VNumber (n : number)
  | VString (s : string).

(** [String(v)] for the values that get past the parser's first two tests:
    strings, and numbers that are not finite. *)
Definition String_of (v : value) : string :=
  match v with
  | VString s => s
  | VNumber n =>
      if PrimFloat.is_nan n then "NaN"
      else if PrimFloat.ltb n PrimFloat.zero then "-Infinity" else "Infinity"
  | VUndefined => "undefined"
  | VNull => "null"
  end.

End Js.

(* ================================================================== *)
(** * The relational store and db.ts                                   *)
(* ================================================================== *)

Module Store.

Import Js.

Definition UserId := string.
Definition RoleId := string.
Definition FundId := string.
Definition TxId := string.

(** The scope of a grant of a role over a fund. *)
Inductive scope : Type := ScopeRead | ScopeWrite | ScopeAdmin.

Inductive tx_type : Type := credit | debit.

Record role : Type := { role_id : RoleId; role_name : string }.

Record user_role : Type := { ur_user_id : UserId; ur_role_id : RoleId }.

Record role_fund_access : Type :=
  { rfa_role_id : RoleId; rfa_fund_id : FundId; rfa_scope : scope }.

Record bank_transaction : Type :=
  { bt_id : TxId;
    bt_account_id : string;
    bt_tx_date : string;
    bt_description : option string;
    bt_amount : number;
    bt_type : tx_type;
    bt_category_id : option string }.

Record transaction_allocation : Type :=
  { ta_transaction_id : TxId; ta_fund_id : FundId; ta_ratio : number }.

(** The tables of schema [app] that the modelled routes read or write. *)
Record db : Type :=
  { roles : list role;
    user_roles : list user_role;
    role_fund_accesses : list role_fund_access;
    bank_transactions : list bank_transaction;
    transaction_allocations : list transaction_allocation }.

Definition with_bank_transactions (d : db) (l : list bank_transaction) : db :=
  {| roles := roles d; user_roles := user_roles d;
     role_fund_accesses := role_fund_accesses d;
     bank_transactions := l;
     transaction_allocations := transaction_allocations d |}.

Definition with_transaction_allocations (d : db) (l : list transaction_allocation) : db :=
  {| roles := roles d; user_roles := user_roles d;
     role_fund_accesses := role_fund_accesses d;
     bank_transactions := bank_transactions d;
     transaction_allocations := l |}.

(** The database with rows appended to the two ledger tables. *)
Definition ledger_append (d : db) (txs : list bank_transaction)
    (allocs : list transaction_allocation) : db :=
  {| roles := roles d; user_roles := user_roles d;
     role_fund_accesses := role_fund_accesses d;
     bank_transactions := bank_transactions d ++ txs;
     transaction_allocations := transaction_allocations d ++ allocs |}.

(** The fields of [update app.bank_transactions set col = coalesce($n, col)]. *)
Record tx_update : Type :=
  { up_account_id : option string;
    up_tx_date : option string;
    up_description : option string;
    up_amount : option number;
    up_type : option tx_type;
    up_category_id : option string }.

(** What the schema, which is not part of the repository, decides: the
    default of the [id] column and the constraints (keys, foreign keys,
    checks, triggers) a row must satisfy to be inserted or updated. *)
Record schema : Type :=
  { new_uuid : nat -> TxId;
    transaction_ok : db -> bank_transaction -> bool;
    allocation_ok : db -> transaction_allocation -> bool }.

(** The statements sent over a connection, in the order they are sent. *)
Inductive stmt : Type :=
  | Begin
  | Commit
  | Rollback
  | SetCurrentUser (u : UserId)
  | SelectWriteScopeCount (u : UserId) (funds : list FundId)
  | InsertTransaction (r : bank_transaction)
  | UpdateTransaction (id : TxId) (u : tx_update)
  | DeleteAllocations (id : TxId)
  | InsertAllocation (r : transaction_allocation).

(** Statements that change rows. *)
Definition is_mutation (s : stmt) : bool :=
  match s with
  | InsertTransaction _ | UpdateTransaction _ _ | InsertAllocation _
  | DeleteAllocations _ => true
  | _ => false
  end.

(** Statements that read or change rows, as opposed to transaction control. *)
Definition is_data_stmt (s : stmt) : bool :=
  match s with
  | Begin | Commit | Rollback | SetCurrentUser _ => false
  | _ => true
  end.

Definition is_scope_query (s : stmt) : bool :=
  match s with
  | SelectWriteScopeCount _ _ => true
  | _ => false
  end.

(** A thrown JavaScript error: [e.status] when the route set one, and
    [e.message]. *)
Record js_error : Type := { status : option nat; message : string }.

Definition http_error (st : nat) (msg : string) : js_error :=
  {| status := Some st; message := msg |}.

(** The error of a statement the store refuses. *)
Definition database_error : js_error :=
  {| status := None; message := "database error" |}.

(** The server seen from one request: the committed database, the
    database as the open transaction sees it, whether a transaction is
    open, the position in the id sequence, and the statement log. *)
Record conn : Type :=
  { committed : db;
    working : db;
    in_tx : bool;
    uuid_seq : nat;
    log : list stmt }.

Definition connect (d : db) (seq : nat) : conn :=
  {| committed := d; working := d; in_tx := false; uuid_seq := seq; log := [] |}.

Inductive outcome (A : Type) : Type :=
  | Return (a : A)
  | Throw (e : js_error).

Arguments Return {A} a.
Arguments Throw {A} e.

(** Asynchronous code over a connection: state passing with exceptions;
    the state survives a throw, as the connection survives a rejection. *)
Definition M (A : Type) : Type := conn -> outcome A * conn.

Definition ret {A} (a : A) : M A := fun c => (Return a, c).

Definition throw {A} (e : js_error) : M A := fun c => (Throw e, c).

(** Code that does not touch the connection. *)
Definition lift {A} (o : outcome A) : M A := fun c => (o, c).

Definition bind {A B} (m : M A) (k : A -> M B) : M B :=
  fun c =>
    match m c with
    | (Return a, c') => k a c'
    | (Throw e, c') => (Throw e, c')
    end.

Definition try_catch {A} (m : M A) (handler : js_error -> M A) : M A :=
  fun c =>
    match m c with
    | (Return a, c') => (Return a, c')
    | (Throw e, c') => handler e c'
    end.

Declare Scope db_scope.
Delimit Scope db_scope with db.
Notation "x <- m ;; k" := (bind m (fun x => k))
  (at level 61, m at next level, right associativity) : db_scope.
Notation "m ;; k" := (bind m (fun _ => k))
  (at level 61, right associativity) : db_scope.
Local Open Scope db_scope.

Fixpoint for_each {A} (l : list A) (body : A -> M unit) : M unit :=
  match l with
  | [] => ret tt
  | a :: r => body a ;; for_each r body
  end.

(** The connection after a statement is logged. *)
Definition sent (c : conn) (s : stmt) : conn :=
  {| committed := committed c; working := working c; in_tx := in_tx c;
     uuid_seq := uuid_seq c; log := log c ++ [s] |}.

Definition send (s : stmt) : M unit := fun c => (Return tt, sent c s).

(** The connection after [begin] and [set_current_user] on a fresh one. *)
Definition opened (d : db) (seq : nat) (u : UserId) : conn :=
  {| committed := d; working := d; in_tx := true; uuid_seq := seq;
     log := [Begin; SetCurrentUser u] |}.

(** [begin]: opens a transaction; inside one it only raises a warning. *)
Definition query_begin : M unit :=
  send Begin ;;
  fun c =>
    (Return tt,
     if in_tx c then c
     else {| committed := committed c; working := committed c; in_tx := true;
             uuid_seq := uuid_seq c; log := log c |}).

(** [commit]: makes the transaction's view the committed database. *)
Definition query_commit : M unit :=
  send Commit ;;
  fun c =>
    (Return tt,
     if in_tx c
     then {| committed := working c; working := working c; in_tx := false;
             uuid_seq := uuid_seq c; log := log c |}
     else c).

(** [rollback]: discards the transaction's changes. *)
Definition query_rollback : M unit :=
  send Rollback ;;
  fun c =>
    (Return tt,
     if in_tx c
     then {| committed := committed c; working := committed c; in_tx := false;
             uuid_seq := uuid_seq c; log := log c |}
     else c).

(** [select app.set_current_user($1)]: the marker read by the views. *)
Definition set_current_user (u : UserId) : M unit := send (SetCurrentUser u).

(** A statement that changes rows: it acts on the transaction's view and,
    outside a transaction, is committed at once; refused, it throws and
    changes nothing. *)
Definition mutate (s : stmt) (f : db -> option db) : M unit :=
  send s ;;
  fun c =>
    match f (working c) with
    | Some d =>
        (Return tt,
         {| committed := if in_tx c then committed c else d;
            working := d; in_tx := in_tx c;
            uuid_seq := uuid_seq c; log := log c |})
    | None => (Throw database_error, c)
    end.

(** A read of the transaction's view. *)
Definition select {A} (s : stmt) (f : db -> A) : M A :=
  send s ;; fun c => (Return (f (working c)), c).

Definition next_uuid (sch : schema) : M TxId :=
  fun c =>
    (Return (new_uuid sch (uuid_seq c)),
     {| committed := committed c; working := working c; in_tx := in_tx c;
        uuid_seq := S (uuid_seq c); log := log c |}).

(** db.ts, [withUser]: begin, set the current user, run [fn], commit;
    on any throw, rollback and rethrow. *)
Definition withUser {A} (userId : UserId) (fn : M A) : M A :=
  try_catch
    (query_begin ;;
     set_current_user userId ;;
     out <- fn ;;
     query_commit ;;
     ret out)
    (fun e => query_rollback ;; throw e).

(** A request served on a fresh connection: what it answers, the database
    it leaves behind, and the statements it sent. *)
Definition serve {A} (h : M A) (d : db) (seq : nat) : outcome A * db * list stmt :=
  let '(o, c) := h (connect d seq) in (o, committed c, log c).

(** ** Properties of session code *)

(** Code that stays inside the open transaction: run in a transaction it
    leaves the committed database alone and the transaction open, sends
    only statements satisfying [P], and throws only errors satisfying [E]. *)
Definition obeys (P : stmt -> bool) (E : js_error -> Prop) {A} (m : M A) : Prop :=
  forall c, in_tx c = true ->
    committed (snd (m c)) = committed c
    /\ in_tx (snd (m c)) = true
    /\ (exists l, log (snd (m c)) = log c ++ l /\ forallb P l = true)
    /\ (forall e, fst (m c) = Throw e -> E e).





End Store.

(* ================================================================== *)
(** * permissions.ts                                                   *)
(* ================================================================== *)

Module Permissions.

Import Js Store.
Local Open Scope db_scope.

(** [[...new Set(l)]]: the distinct elements, in order of first occurrence. *)
Fixpoint dedup_by {A} (eqb : A -> A -> bool) (l : list A) : list A :=
  match l with
  | [] => []
  | x :: r => x :: filter (fun y => negb (eqb y x)) (dedup_by eqb r)
  end.

Definition dedup (l : list string) : list string := dedup_by String.eqb l.

Record effective_access : Type :=
  { efa_user_id : UserId; efa_fund_id : FundId; efa_scope : scope }.

Definition scope_rank (s : scope) : nat :=
  match s with ScopeRead => 1 | ScopeWrite => 2 | ScopeAdmin => 3 end.

Definition scope_max (a b : scope) : scope :=
  if scope_rank a <=? scope_rank b then b else a.

Definition pair_eqb (a b : string * string) : bool :=
  String.eqb (fst a) (fst b) && String.eqb (snd a) (snd b).

(** Every (user, fund, scope) reachable through a role of the user:
    [app.user_roles] joined with [app.role_fund_access] on the role. *)
Definition user_grants (d : db) : list effective_access :=
  flat_map
    (fun ur =>
       map (fun g => {| efa_user_id := ur_user_id ur;
                        efa_fund_id := rfa_fund_id g;
                        efa_scope := rfa_scope g |})
           (filter (fun g => String.eqb (rfa_role_id g) (ur_role_id ur))
                   (role_fund_accesses d)))
    (user_roles d).

(** The highest scope among the grants of a user on a fund. *)
Definition highest_scope (u : UserId) (f : FundId) (gs : list effective_access) : scope :=
  fold_left
    (fun acc g =>
       if pair_eqb (efa_user_id g, efa_fund_id g) (u, f)
       then scope_max acc (efa_scope g)
       else acc)
    gs ScopeRead.

(** Modelled from the spec: the view [app.v_effective_fund_access], whose
    definition is not in the repository. Section 3: "mapping (user, fund)
    -> highest scope granted through any role"; section 4.1: "the set of
    (fund_id, scope) pairs reachable through the user's roles", the
    admin/owner override being left to each gate. One row per user and
    fund with a grant, carrying the highest scope among those grants. *)
Definition v_effective_fund_access (d : db) : list effective_access :=
  map (fun key => {| efa_user_id := fst key;
                     efa_fund_id := snd key;
                     efa_scope := highest_scope (fst key) (snd key) (user_grants d) |})
      (dedup_by pair_eqb
         (map (fun g => (efa_user_id g, efa_fund_id g)) (user_grants d))).

Definition scope_in_write_admin (s : scope) : bool :=
  match s with ScopeWrite | ScopeAdmin => true | ScopeRead => false end.

(** [select count(distinct fund_id) from app.v_effective_fund_access
     where user_id = $1 and fund_id = any($2) and scope in ('write','admin')]. *)
Definition write_scope_count (userId : UserId) (fundIds : list FundId) (d : db) : nat :=
  length
    (dedup
       (map efa_fund_id
          (filter
             (fun r => String.eqb (efa_user_id r) userId
                       && existsb (String.eqb (efa_fund_id r)) fundIds
                       && scope_in_write_admin (efa_scope r))
             (v_effective_fund_access d)))).

Definition forbidden : js_error :=
  http_error 403 "forbidden: missing write/admin on one or more funds".

Definition assertWriteForFunds (userId : UserId) (fundIds : list FundId) : M unit :=
  if length fundIds =? 0 then ret tt
  else
    cnt <- select (SelectWriteScopeCount userId fundIds)
                  (write_scope_count userId fundIds) ;;
    let ok := cnt =? length fundIds in
    if negb ok then throw forbidden else ret tt.

(** The user holds, through some role, a grant of scope write or admin
    on the fund. *)
Definition has_write_or_admin (d : db) (u : UserId) (f : FundId) : bool :=
  existsb
    (fun ur =>
       String.eqb (ur_user_id ur) u
       && existsb
            (fun g => String.eqb (rfa_role_id g) (ur_role_id ur)
                      && String.eqb (rfa_fund_id g) f
                      && scope_in_write_admin (rfa_scope g))
            (role_fund_accesses d))
    (user_roles d).

(** The errors of the session code of the transaction routes: the gate's
    or the store's. *)
Definition gate_or_store (e : js_error) : Prop := e = forbidden \/ e = database_error.

(** The number of requested funds on which the user has write or admin
    scope. *)
Definition sufficient_count (d : db) (u : UserId) (fundIds : list FundId) : nat :=
  length (filter (has_write_or_admin d u) fundIds).

End Permissions.

(* ================================================================== *)
(** * routes/transactions.ts: POST / and PATCH /:id                    *)
(* ================================================================== *)

Module Transactions.

Import Js Store Permissions.
Local Open Scope db_scope.

Record allocation_input : Type := { fund_id : FundId; ratio : number }.

(** The data of a body accepted by the [TxInput] schema. *)
Record TxInput : Type :=
  { in_account_id : string;
    in_tx_date : string;
    in_description : option string;
    in_amount : number;
    in_type : tx_type;
    in_fund_id : option FundId;
    in_category_id : option string;
    in_allocations : option (list allocation_input) }.

(** The data of a body accepted by [TxInput.partial()]. *)
Record TxPatch : Type :=
  { pa_account_id : option string;
    pa_tx_date : option string;
    pa_description : option string;
    pa_amount : option number;
    pa_type : option tx_type;
    pa_fund_id : option FundId;
    pa_category_id : option string;
    pa_allocations : option (list allocation_input) }.

(** The result of [schema.safeParse(body)]: the data, or the message of
    the first issue when there is one. *)
Inductive safe_parse (A : Type) : Type :=
  | ParseSuccess (data : A)
  | ParseFailure (first_issue : option string).

Arguments ParseSuccess {A} data.
Arguments ParseFailure {A} first_issue.

Inductive payload : Type :=
  | CreatedId (id : TxId)
  | OkId (id : TxId).

Record response : Type := { res_status : nat; res_body : payload }.

(** Truthiness of an optional string field. *)
Definition truthy (o : option string) : bool :=
  match o with
  | Some s => negb (is_empty s)
  | None => false
  end.

Definition invalid_body (first_issue : option string) : js_error :=
  http_error 400 (match first_issue with Some m => m | None => "invalid body" end).

Definition fund_required : js_error :=
  http_error 400 "a fund is required (use fund_id or allocations)".

Definition ratio_sum_error : js_error :=
  http_error 400 "allocations ratio sum must be 1".

Definition allocations_empty : js_error :=
  http_error 400 "allocations cannot be empty".

(** [allocations.reduce((acc, a) => acc + Number(a.ratio), 0)]. *)
Definition ratio_sum (allocations : list allocation_input) : number :=
  fold_left (fun acc a => (acc + ratio a)%float) allocations 0%float.

(** [Math.abs(sum - 1) > 1e-9]. *)
Definition ratio_sum_off (allocations : list allocation_input) : bool :=
  gt (PrimFloat.abs (ratio_sum allocations - 1)%float) 1e-9%float.

(** The allocations a POST body stands for: the array when it has
    elements, else the [fund_id] shortcut. *)
Definition build_allocations (input : TxInput) : list allocation_input :=
  let allocations :=
    match in_allocations input with
    | Some l => l
    | None => []
    end in
  if (length allocations =? 0) && truthy (in_fund_id input)
  then match in_fund_id input with
       | Some f => [{| fund_id := f; ratio := 1%float |}]
       | None => allocations
       end
  else allocations.

Definition insert_transaction (sch : schema)
    (account_id tx_date : string) (description : option string)
    (amount : number) (type : tx_type) (category_id : option string) : M TxId :=
  id <- next_uuid sch ;;
  let r := {| bt_id := id; bt_account_id := account_id; bt_tx_date := tx_date;
              bt_description := description; bt_amount := amount;
              bt_type := type; bt_category_id := category_id |} in
  mutate (InsertTransaction r)
         (fun d => if transaction_ok sch d r
                   then Some (with_bank_transactions d (bank_transactions d ++ [r]))
                   else None) ;;
  ret id.

Definition insert_allocation (sch : schema) (txId : TxId) (f : FundId) (r : number) : M unit :=
  let row := {| ta_transaction_id := txId; ta_fund_id := f; ta_ratio := r |} in
  mutate (InsertAllocation row)
         (fun d => if allocation_ok sch d row
                   then Some (with_transaction_allocations d (transaction_allocations d ++ [row]))
                   else None).

(** The row stored for an allocation of a transaction. *)
Definition allocation_row (txId : TxId) (a : allocation_input) : transaction_allocation :=
  {| ta_transaction_id := txId; ta_fund_id := fund_id a; ta_ratio := ratio a |}.

Definition coalesce {A} (x : option A) (y : A) : A :=
  match x with Some v => v | None => y end.

Definition apply_update (u : tx_update) (r : bank_transaction) : bank_transaction :=
  {| bt_id := bt_id r;
     bt_account_id := coalesce (up_account_id u) (bt_account_id r);
     bt_tx_date := coalesce (up_tx_date u) (bt_tx_date r);
     bt_description :=
       match up_description u with Some s => Some s | None => bt_description r end;
     bt_amount := coalesce (up_amount u) (bt_amount r);
     bt_type := coalesce (up_type u) (bt_type r);
     bt_category_id :=
       match up_category_id u with Some s => Some s | None => bt_category_id r end |}.

Definition update_transaction (sch : schema) (txId : TxId) (u : tx_update) : M unit :=
  mutate (UpdateTransaction txId u)
         (fun d =>
            let hit r := String.eqb (bt_id r) txId in
            if forallb (fun r => negb (hit r) || transaction_ok sch d (apply_update u r))
                       (bank_transactions d)
            then Some (with_bank_transactions d
                         (map (fun r => if hit r then apply_update u r else r)
                              (bank_transactions d)))
            else None).

Definition delete_allocations (txId : TxId) : M unit :=
  mutate (DeleteAllocations txId)
         (fun d =>
            Some (with_transaction_allocations d
                    (filter (fun a => negb (String.eqb (ta_transaction_id a) txId))
                            (transaction_allocations d)))).

(** The effective allocation set of a POST body, as the rules of the route
    state it: the allocations when there are some, else the single fund of
    [fund_id] at ratio 1, else nothing. *)
Definition effective_allocations (input : TxInput) : list allocation_input :=
  match in_allocations input with
  | Some (a :: r) => a :: r
  | _ =>
      match in_fund_id input with
      | Some f => [{| fund_id := f; ratio := 1%float |}]
      | None => []
      end
  end.

(** POST /transactions. *)
Definition post_transaction (sch : schema) (userId : UserId)
    (parsed : safe_parse TxInput) : M response :=
  match parsed with
  | ParseFailure m => throw (invalid_body m)
  | ParseSuccess input =>
      let allocations := build_allocations input in
      if length allocations =? 0 then throw fund_required
      else if ratio_sum_off allocations then throw ratio_sum_error
      else
        let fundIds := dedup (map fund_id allocations) in
        id <- withUser userId
                (assertWriteForFunds userId fundIds ;;
                 txId <- insert_transaction sch (in_account_id input) (in_tx_date input)
                           (in_description input) (in_amount input) (in_type input)
                           (in_category_id input) ;;
                 for_each allocations
                   (fun a => insert_allocation sch txId (fund_id a) (ratio a)) ;;
                 ret txId) ;;
        ret {| res_status := 201; res_body := CreatedId id |}
  end.

(** The allocations a PATCH body asks for, if any: the [fund_id] shortcut
    first, else the array, which must have elements and sum to 1. *)
Definition prepare_allocations (body : TxPatch) : outcome (option (list allocation_input)) :=
  if truthy (pa_fund_id body)
  then match pa_fund_id body with
       | Some f => Return (Some [{| fund_id := f; ratio := 1%float |}])
       | None => Return None
       end
  else match pa_allocations body with
       | Some l =>
           if length l =? 0 then Throw allocations_empty
           else if ratio_sum_off l then Throw ratio_sum_error
           else Return (Some l)
       | None => Return None
       end.

Definition patch_fields (body : TxPatch) : tx_update :=
  {| up_account_id := pa_account_id body;
     up_tx_date := pa_tx_date body;
     up_description := pa_description body;
     up_amount := pa_amount body;
     up_type := pa_type body;
     up_category_id := pa_category_id body |}.

(** PATCH /transactions/:id. *)
Definition patch_transaction (sch : schema) (userId : UserId) (txId : TxId)
    (parsed : safe_parse TxPatch) : M response :=
  match parsed with
  | ParseFailure m => throw (invalid_body m)
  | ParseSuccess body =>
      withUser userId
        (newAlloc <- lift (prepare_allocations body) ;;
         match newAlloc with
         | Some l => assertWriteForFunds userId (dedup (map fund_id l))
         | None => ret tt
         end ;;
         update_transaction sch txId (patch_fields body) ;;
         match newAlloc with
         | Some l =>
             delete_allocations txId ;;
             for_each l (fun a => insert_allocation sch txId (fund_id a) (ratio a))
         | None => ret tt
         end) ;;
      ret {| res_status := 200; res_body := OkId txId |}
  end.

End Transactions.

(* ================================================================== *)
(** * routes/transactions_import.ts                                    *)
(* ================================================================== *)

Module TransactionsImport.

Import Js Store Permissions.
Local Open Scope db_scope.

(** The character class of [/[^\d.,-]/g], complemented: what survives. *)
Definition amount_char (c : ascii) : bool :=
  is_digit c || ascii_eqb c "." || ascii_eqb c "," || ascii_eqb c "-".

Definition strip (s : string) : string := filter_str amount_char s.

(** The separator handling of [parseAmountLoose], on the stripped string. *)
Definition normalize_separators (s : string) : string :=
  let hasDot := includes "." s in
  let hasComma := includes "," s in
  if hasDot && hasComma then
    if (lastIndexOf "," s >? lastIndexOf "." s)%Z
    then replace_first "," "." (remove_all "." s)
    else remove_all "," s
  else if hasComma then replace_first "," "." (remove_all "." s)
  else remove_all "," s.

Definition parseAmountLoose (v : value) : option number :=
  match v with
  | VUndefined | VNull => None
  | _ =>
      let early :=
        match v with
        | VNumber n => if isFinite n then Some n else None
        | _ => None
        end in
      match early with
      | Some n => Some n
      | None =>
          let s := trim (String_of v) in
          if is_empty s then None
          else
            let s := strip s in
            let s := normalize_separators s in
            let n := Number s in
            if isFinite n then Some n else None
      end
  end.


(** The parser as the import pipeline describes it: of dot and comma, the
    separator that occurs last in the stripped string is the decimal
    separator (the only one present, when only one is); the other one
    separates thousands and is dropped. *)
Definition decimal_separator (t : string) : option ascii :=
  match includes "." t, includes "," t with
  | true, true =>
      if (lastIndexOf "," t >? lastIndexOf "." t)%Z then Some ","%char else Some "."%char
  | false, true => Some ","%char
  | true, false => Some "."%char
  | false, false => None
  end.

Definition thousands_separator (dec : ascii) : ascii :=
  if ascii_eqb dec "," then "."%char else ","%char.

Definition read_separators (t : string) : string :=
  match decimal_separator t with
  | Some dec => replace_all dec "." (remove_all (thousands_separator dec) t)
  | None => t
  end.

Definition parse_amount_as_described (s : string) : option number :=
  if is_empty (trim s) then None
  else
    let n := Number (read_separators (strip s)) in
    if isFinite n then Some n else None.

(** A record of the CSV file: one optional string per column read. *)
Record raw_row : Type :=
  { raw_account_id : option string;
    raw_date : option string;
    raw_tx_date : option string;
    raw_description : option string;
    raw_amount : option string;
    raw_type : option string;
    raw_category_id : option string;
    raw_fund_id : option string }.

(** The data of an object accepted by the [Row] schema. *)
Record Row : Type :=
  { row_account_id : string;
    row_date : string;
    row_description : option string;
    row_amount : number;
    row_type : tx_type;
    row_category_id : option string;
    row_fund_id : FundId }.

(** The object handed to [Row.safeParse]. *)
Record candidate : Type :=
  { c_account_id : option string;
    c_date : option string;
    c_description : option string;
    c_amount : option number;
    c_type : string;
    c_category_id : option string;
    c_fund_id : option string }.

Definition cell (o : option string) : value :=
  match o with Some s => VString s | None => VUndefined end.

Definition nonempty (o : option string) : option string :=
  match o with
  | Some s => if is_empty s then None else Some s
  | None => None
  end.

Definition to_candidate (raw : raw_row) : candidate :=
  {| c_account_id := raw_account_id raw;
     c_date := match raw_date raw with Some d => Some d | None => raw_tx_date raw end;
     c_description := raw_description raw;
     c_amount := parseAmountLoose (cell (raw_amount raw));
     c_type := toLowerCase (match raw_type raw with Some t => t | None => "" end);
     c_category_id := nonempty (raw_category_id raw);
     c_fund_id := raw_fund_id raw |}.

Record issue : Type := { path : list string; issue_message : string }.

(** [/^\d{4}-\d{2}-\d{2}$/]. *)
Definition is_date (s : string) : bool :=
  match list_ascii_of_string s with
  | [y1; y2; y3; y4; h1; m1; m2; h2; d1; d2] =>
      is_digit y1 && is_digit y2 && is_digit y3 && is_digit y4
      && ascii_eqb h1 "-" && is_digit m1 && is_digit m2
      && ascii_eqb h2 "-" && is_digit d1 && is_digit d2
  | _ => false
  end.

Definition parse_type (s : string) : option tx_type :=
  if String.eqb s "credit" then Some credit
  else if String.eqb s "debit" then Some debit
  else None.

Section Validation.

(** The test of zod's [z.string().uuid()]. *)
Variable is_uuid : string -> bool.

Definition required (field : string) : issue :=
  {| path := [field]; issue_message := "Required" |}.

Definition check_uuid (field : string) (v : option string) : list issue :=
  match v with
  | None => [required field]
  | Some s => if is_uuid s then [] else [{| path := [field]; issue_message := "Invalid uuid" |}]
  end.

Definition check_nullable_uuid (field : string) (v : option string) : list issue :=
  match v with
  | None => []
  | Some s => if is_uuid s then [] else [{| path := [field]; issue_message := "Invalid uuid" |}]
  end.

Definition check_date (v : option string) : list issue :=
  match v with
  | None => [required "date"]
  | Some s => if is_date s then [] else [{| path := ["date"]; issue_message := "Invalid" |}]
  end.

Definition check_amount (v : option number) : list issue :=
  match v with
  | None => [required "amount"]
  | Some n =>
      if gt n 0%float then []
      else [{| path := ["amount"]; issue_message := "Number must be greater than 0" |}]
  end.

Definition check_type (s : string) : list issue :=
  match parse_type s with
  | Some _ => []
  | None =>
      [{| path := ["type"];
          issue_message :=
            ("Invalid enum value. Expected 'credit' | 'debit', received '" ++ s ++ "'")%string |}]
  end.

Definition issues_of (c : candidate) : list issue :=
  check_uuid "account_id" (c_account_id c)
  ++ check_date (c_date c)
  ++ check_amount (c_amount c)
  ++ check_type (c_type c)
  ++ check_nullable_uuid "category_id" (c_category_id c)
  ++ check_uuid "fund_id" (c_fund_id c).

(** [Row.safeParse]: the data when no field raises an issue, else every
    issue, in the order of the schema's keys. *)
Definition Row_safeParse (c : candidate) : Row + list issue :=
  match issues_of c, c_account_id c, c_date c, c_amount c, parse_type (c_type c), c_fund_id c with
  | [], Some a, Some d, Some n, Some t, Some f =>
      inl {| row_account_id := a; row_date := d;
             row_description := option_map trim (c_description c);
             row_amount := n; row_type := t;
             row_category_id := c_category_id c; row_fund_id := f |}
  | l, _, _, _, _, _ => inr l
  end.

Definition or_else (a b : string) : string := if is_empty a then b else a.

(** [error.flatten().formErrors]: the messages of the issues with no path. *)
Definition formErrors (l : list issue) : list string :=
  map issue_message (filter (fun x => length (path x) =? 0) l).

Definition row_error_message (l : list issue) : string :=
  or_else (String.concat "; " (formErrors l))
    (or_else
       (String.concat "; "
          (map (fun x => (String.concat "." (path x) ++ ": " ++ issue_message x)%string) l))
       "Fila inválida").

Record import_error : Type := { index : nat; error : string; row : raw_row }.

(** [rawRows.forEach((raw, i) => ...)], from index [i] on, filling [rows]
    and [errors]. *)
Fixpoint validate_rows (rawRows : list raw_row) (i : nat)
    (rows : list Row) (errors : list import_error) : list Row * list import_error :=
  match rawRows with
  | [] => (rows, errors)
  | raw :: rest =>
      match Row_safeParse (to_candidate raw) with
      | inl data => validate_rows rest (S i) (rows ++ [data]) errors
      | inr l =>
          validate_rows rest (S i) rows
            (errors ++ [{| index := i + 2; error := row_error_message l; row := raw |}])
      end
  end.

(** The entries owed to the rows that fail validation, the first row
    having index [i]. *)
Fixpoint failing_rows (rawRows : list raw_row) (i : nat) : list import_error :=
  match rawRows with
  | [] => []
  | raw :: rest =>
      match Row_safeParse (to_candidate raw) with
      | inl _ => failing_rows rest (S i)
      | inr l =>
          {| index := i + 2; error := row_error_message l; row := raw |}
          :: failing_rows rest (S i)
      end
  end.

(** The data of the rows that pass validation. *)
Fixpoint valid_rows (rawRows : list raw_row) : list Row :=
  match rawRows with
  | [] => []
  | raw :: rest =>
      match Row_safeParse (to_candidate raw) with
      | inl data => data :: valid_rows rest
      | inr _ => valid_rows rest
      end
  end.

Inductive csv : Type :=
  | CsvRows (rawRows : list raw_row)
  | CsvFailure (msg : string).

Record import_request : Type :=
  { req_user : UserId;
    req_dry_run : option string;
    req_file : option csv }.

Inductive import_body : Type :=
  | ErrorMessage (msg : string)
  | InvalidRows (msg : string) (errors : list import_error) (valid : nat)
  | Valid (valid : nat)
  | Inserted (inserted : nat).

Record import_response : Type := { imp_status : nat; imp_body : import_body }.

Definition quote : string := String (ascii_of_nat 34) EmptyString.

Definition missing_file : string :=
  ("Falta archivo CSV (campo " ++ quote ++ "file" ++ quote ++ ")")%string.

Definition insert_rows (sch : schema) (rows : list Row) : M unit :=
  for_each rows
    (fun r =>
       let unsigned := PrimFloat.abs (row_amount r) in
       id <- Transactions.insert_transaction sch (row_account_id r) (row_date r)
               (row_description r) unsigned (row_type r) (row_category_id r) ;;
       Transactions.insert_allocation sch id (row_fund_id r) 1%float).



(** POST /transactions/import. *)
Definition import_transactions (sch : schema) (req : import_request) : M import_response :=
  try_catch
    (let userId := req_user req in
     let dryRun :=
       String.eqb (match req_dry_run req with Some s => s | None => "0" end) "1" in
     match req_file req with
     | None => ret {| imp_status := 400; imp_body := ErrorMessage missing_file |}
     | Some (CsvFailure msg) => throw {| status := None; message := msg |}
     | Some (CsvRows rawRows) =>
         let '(rows, errors) := validate_rows rawRows 0 [] [] in
         if negb (length errors =? 0)
         then ret {| imp_status := 422;
                     imp_body := InvalidRows "CSV contiene filas inválidas" errors (length rows) |}
         else if dryRun
         then ret {| imp_status := 200; imp_body := Valid (length rows) |}
         else
           withUser userId
             (query_begin ;;
              try_catch
                (insert_rows sch rows ;; query_commit)
                (fun err => query_rollback ;; throw err)) ;;
           ret {| imp_status := 200; imp_body := Inserted (length rows) |}
     end)
    (fun e => ret {| imp_status := 500; imp_body := ErrorMessage (message e) |}).

End Validation.

End TransactionsImport.

(* ================================================================== *)
(** * The fund gate of the list queries                                *)
(* ================================================================== *)

Module Listing.

Import Js Store Permissions.

(** The CTE [me] / [is_admin]: the user holds a role whose lower-cased
    name is 'admin' or 'owner'. *)
Definition is_admin (d : db) (u : UserId) : bool :=
  existsb
    (fun ur =>
       String.eqb (ur_user_id ur) u
       && existsb
            (fun r =>
               String.eqb (role_id r) (ur_role_id ur)
               && (String.eqb (toLowerCase (role_name r)) "admin"
                   || String.eqb (toLowerCase (role_name r)) "owner"))
            (roles d))
    (user_roles d).

Definition scope_in_read_write_admin (s : scope) : bool :=
  match s with ScopeRead | ScopeWrite | ScopeAdmin => true end.

(** The CTE [allowed_funds]: the distinct funds of the grants of the
    user's roles with scope read, write or admin. *)
Definition allowed_funds (d : db) (u : UserId) : list FundId :=
  dedup
    (flat_map
       (fun ur =>
          map rfa_fund_id
              (filter (fun g => String.eqb (rfa_role_id g) (ur_role_id ur)
                                && scope_in_read_write_admin (rfa_scope g))
                      (role_fund_accesses d)))
       (filter (fun ur => String.eqb (ur_user_id ur) u) (user_roles d))).

(** [x = y] for a nullable [x]: true only for a value equal to [y]. *)
Definition sql_eq (x : option string) (y : string) : bool :=
  match x with
  | Some v => String.eqb v y
  | None => false
  end.

(** [x in (select fund_id from allowed_funds)] for a nullable [x]: true
    only for a value that is in the list. *)
Definition sql_in (x : option FundId) (l : list FundId) : bool :=
  match x with
  | Some f => existsb (String.eqb f) l
  | None => false
  end.

Section Query.

(** The rows of the listed relation, with their fund column; the
    conjuncts of WHERE built from the optional query parameters (none of
    them mentions the user); the ORDER BY comparison. *)
Context {row : Type}.
Variable fund_of : row -> option FundId.
Variable filters : row -> bool.
Variable order : row -> row -> bool.

Fixpoint insert_by (x : row) (l : list row) : list row :=
  match l with
  | [] => [x]
  | y :: r => if order x y then x :: y :: r else y :: insert_by x r
  end.

Definition order_by (l : list row) : list row := fold_right insert_by [] l.

(** [limit n offset k]. *)
Definition page (limit offset : nat) (l : list row) : list row :=
  firstn limit (skipn offset l).

(** The query with no fund gate at all. *)
Definition ungated_list (limit offset : nat) (table : list row) : list row :=
  page limit offset (order_by (filter filters table)).

(** GET /facturas, GET /payments and GET /liquidaciones:
    [where (me.is_admin or x.fund_id in (select fund_id from allowed_funds))
       and <filters> order by ... limit ... offset ...]. *)
Definition list_by_allowed_funds (d : db) (u : UserId) (limit offset : nat)
    (table : list row) : list row :=
  page limit offset
    (order_by
       (filter (fun r => (is_admin d u || sql_in (fund_of r) (allowed_funds d u))
                         && filters r)
               table)).

(** [v left join app.v_effective_fund_access efa
       on efa.fund_id = v.fund_id and efa.user_id = $1]:
    each row with each matching row of the view, or once with none. *)
Definition left_join_access (d : db) (u : UserId) (table : list row)
    : list (row * option effective_access) :=
  flat_map
    (fun v =>
       match filter (fun efa => sql_eq (fund_of v) (efa_fund_id efa)
                                && String.eqb (efa_user_id efa) u)
                    (v_effective_fund_access d) with
       | [] => [(v, None)]
       | matches => map (fun efa => (v, Some efa)) matches
       end)
    table.

(** GET /transactions:
    [where (ia.ok = true or efa.user_id is not null) and <filters>
     order by ... limit ... offset ...]. *)
Definition list_by_effective_access (d : db) (u : UserId) (limit offset : nat)
    (table : list row) : list row :=
  page limit offset
    (order_by
       (map fst
          (filter (fun j => (is_admin d u
                             || match snd j with Some _ => true | None => false end)
                            && filters (fst j))
                  (left_join_access d u table)))).

End Query.

(** A fund is granted to a user through some role. *)
Definition granted (d : db) (u : UserId) (f : FundId) : Prop :=
  exists ur g,
    In ur (user_roles d) /\ In g (role_fund_accesses d)
    /\ ur_user_id ur = u /\ rfa_role_id g = ur_role_id ur /\ rfa_fund_id g = f.

(** The user holds a role named admin or owner, whatever the case. *)
Definition holds_admin_role (d : db) (u : UserId) : Prop :=
  exists ur r,
    In ur (user_roles d) /\ In r (roles d)
    /\ ur_user_id ur = u /\ role_id r = ur_role_id ur
    /\ (toLowerCase (role_name r) = "admin" \/ toLowerCase (role_name r) = "owner").

End Listing.

(* ================================================================== *)
(** * routes/liquidaciones.ts: GET / and GET /:id                      *)
(* ================================================================== *)

Module Liquidaciones.

Import Store Listing.
Local Open Scope Q_scope.





















End Liquidaciones.

(* ================================================================== *)
(** * Sample data                                                      *)
(* ================================================================== *)

Module Examples.

Import Js Store Permissions Transactions.

(** A store that numbers its transactions and refuses allocations to the
    fund "f-closed". *)
Definition sch : schema :=
  {| new_uuid := fun n => ("tx-" ++ NilZero.string_of_uint (Nat.to_uint n))%string;
     transaction_ok := fun _ _ => true;
     allocation_ok := fun _ a => negb (String.eqb (ta_fund_id a) "f-closed") |}.

(** ana holds the role "Admin" and no grant; beto is an editor with write
    on f1 and f-closed and read on f2; caro is a viewer with read on f1. *)
Definition d0 : db :=
  {| roles := [ {| role_id := "r-admin"; role_name := "Admin" |};
                {| role_id := "r-editor"; role_name := "editor" |};
                {| role_id := "r-viewer"; role_name := "viewer" |} ];
     user_roles := [ {| ur_user_id := "ana"; ur_role_id := "r-admin" |};
                     {| ur_user_id := "beto"; ur_role_id := "r-editor" |};
                     {| ur_user_id := "caro"; ur_role_id := "r-viewer" |} ];
     role_fund_accesses :=
       [ {| rfa_role_id := "r-editor"; rfa_fund_id := "f1"; rfa_scope := ScopeWrite |};
         {| rfa_role_id := "r-editor"; rfa_fund_id := "f2"; rfa_scope := ScopeRead |};
         {| rfa_role_id := "r-editor"; rfa_fund_id := "f-closed"; rfa_scope := ScopeWrite |};
         {| rfa_role_id := "r-viewer"; rfa_fund_id := "f1"; rfa_scope := ScopeRead |} ];
     bank_transactions :=
       [ {| bt_id := "tx-old"; bt_account_id := "acc"; bt_tx_date := "2024-01-31";
            bt_description := None; bt_amount := 100%float; bt_type := credit;
            bt_category_id := None |} ];
     transaction_allocations :=
       [ {| ta_transaction_id := "tx-old"; ta_fund_id := "f1"; ta_ratio := 0.5%float |};
         {| ta_transaction_id := "tx-old"; ta_fund_id := "f2"; ta_ratio := 0.5%float |} ] |}.

(** The same ledger with no role, membership or grant at all. *)
Definition d0_bare : db :=
  {| roles := []; user_roles := []; role_fund_accesses := [];
     bank_transactions := bank_transactions d0;
     transaction_allocations := transaction_allocations d0 |}.

Definition post_input (f : option FundId) (allocs : option (list allocation_input)) : TxInput :=
  {| in_account_id := "acc"; in_tx_date := "2024-02-01"; in_description := None;
     in_amount := 250%float; in_type := debit; in_fund_id := f;
     in_category_id := None; in_allocations := allocs |}.

Definition patch_body (f : option FundId) (allocs : option (list allocation_input)) : TxPatch :=
  {| pa_account_id := None; pa_tx_date := None; pa_description := None;
     pa_amount := None; pa_type := None; pa_fund_id := f;
     pa_category_id := None; pa_allocations := allocs |}.

Definition thirds : list allocation_input :=
  [ {| fund_id := "f1"; ratio := 0.3%float |};
    {| fund_id := "f2"; ratio := 0.3%float |};
    {| fund_id := "f1"; ratio := 0.3%float |} ].

Definition halves : list allocation_input :=
  [ {| fund_id := "f1"; ratio := 0.5%float |};
    {| fund_id := "f2"; ratio := 0.5%float |} ].

(** Invoices by number, with their fund: one per fund, one of a fund
    nobody is granted, one without a fund. *)
Definition invoices : list (string * option FundId) :=
  [ ("A-1", Some "f1"); ("A-2", Some "f2"); ("A-3", Some "f3"); ("A-4", None) ].

Definition all_rows (r : string * option FundId) : bool := true.

Definition by_number (x y : string * option FundId) : bool :=
  String.leb (fst x) (fst y).

(** A UUID test: 8-4-4-4-12 hexadecimal digits. *)
Definition is_hex (c : ascii) : bool :=
  let n := nat_of_ascii (lower_ascii c) in
  is_digit c || ((97 <=? n) && (n <=? 102)).

Fixpoint matches_groups (groups : list nat) (s : list ascii) : bool :=
  match groups with
  | [] => match s with [] => true | _ => false end
  | g :: rest =>
      forallb is_hex (firstn g s)
      && (length (firstn g s) =? g)
      && match rest, skipn g s with
         | [], [] => true
         | _ :: _, c :: s' => ascii_eqb c "-" && matches_groups rest s'
         | _, _ => false
         end
  end.

Definition is_uuid (s : string) : bool :=
  matches_groups [8; 4; 4; 4; 12] (list_ascii_of_string s).

Definition acc1 : string := "aaaaaaaa-0000-4000-8000-000000000001".
Definition fund1 : string := "ffffffff-0000-4000-8000-000000000001".
Definition fund2 : string := "ffffffff-0000-4000-8000-000000000002".

Definition csv_row (amount type fund : string) : TransactionsImport.raw_row :=
  {| TransactionsImport.raw_account_id := Some acc1;
     TransactionsImport.raw_date := None;
     TransactionsImport.raw_tx_date := Some "2024-03-01";
     TransactionsImport.raw_description := Some " alquiler ";
     TransactionsImport.raw_amount := Some amount;
     TransactionsImport.raw_type := Some type;
     TransactionsImport.raw_category_id := Some "";
     TransactionsImport.raw_fund_id := Some fund |}.

(** Two good rows around a row with no usable amount and a fund that is
    not a UUID. *)
Definition bad_batch : list TransactionsImport.raw_row :=
  [ csv_row "40.000,00" "Credit" fund1;
    csv_row "n/a" "debit" "caja";
    csv_row "120" "DEBIT" fund2 ].

Definition good_batch : list TransactionsImport.raw_row :=
  [ csv_row "40.000,00" "Credit" fund1;
    csv_row "$ 120" "DEBIT" fund2 ].

End Examples.

(* ================================================================== *)
(** * middleware/requireRole.ts and the rest of permissions.ts         *)
(* ================================================================== *)

Module RoleGate.

Import Js Store Permissions.
Local Open Scope db_scope.

(** A read of the transaction's view by a statement other than those of
    the ledger routes, which are the ones the log has entries for. *)
Definition read {A} (f : db -> A) : M A := fun c => (Return (f (working c)), c).

(** [select 1 from app.user_roles ur join app.roles r on r.id = ur.role_id
     where ur.user_id = $1 and r.name = $2 limit 1]. *)
Definition role_rows (d : db) (userId : UserId) (roleName : string)
    : list (user_role * role) :=
  firstn 1
    (filter
       (fun j => String.eqb (ur_user_id (fst j)) userId
                 && String.eqb (role_name (snd j)) roleName)
       (flat_map
          (fun ur => map (fun r => (ur, r))
                         (filter (fun r => String.eqb (role_id r) (ur_role_id ur)) (roles d)))
          (user_roles d))).

(** What a middleware does with the request: hand it on, or answer. *)
Inductive gate : Type :=
  | Next
  | Respond (status : nat) (error : string).

Definition requireRole (roleName : string) (userId : UserId) : M gate :=
  try_catch
    (ok <- withUser userId
             (read (fun d => 0 <? length (role_rows d userId roleName))) ;;
     if negb ok then ret (Respond 403 "forbidden (role required)") else ret Next)
    (fun _ => ret (Respond 500 "authz error")).

(** The user holds a role of exactly that name. *)
Definition holds_role_named (d : db) (u : UserId) (roleName : string) : Prop :=
  exists ur r,
    In ur (user_roles d) /\ In r (roles d)
    /\ ur_user_id ur = u /\ role_id r = ur_role_id ur /\ role_name r = roleName.

(** [select distinct fund_id from app.v_effective_fund_access where user_id = $1]. *)
Definition getVisibleFundIds (userId : UserId) : M (list FundId) :=
  read (fun d =>
          dedup (map efa_fund_id
                   (filter (fun r => String.eqb (efa_user_id r) userId)
                           (v_effective_fund_access d)))).

End RoleGate.

(* ================================================================== *)
(** * routes/transactions.ts: DELETE /:id                              *)
(* ================================================================== *)

Module TransactionsDelete.

Import Js Store Permissions RoleGate.
Local Open Scope db_scope.






End TransactionsDelete.

(* ================================================================== *)
(** * GET /:id of facturas and payments                                *)
(* ================================================================== *)

Module Detail.

Import Js Store Permissions Listing.

Section One.

Context {row : Type}.
Variable id_of : row -> string.
Variable fund_of : row -> option FundId.

(** [where x.id = $1
       and (me.is_admin or x.fund_id in (select fund_id from allowed_funds))
     limit 1]. *)
Definition select_one (d : db) (u : UserId) (id : string) (table : list row) : option row :=
  hd_error
    (filter (fun r => String.eqb (id_of r) id
                      && (is_admin d u || sql_in (fund_of r) (allowed_funds d u)))
            table).

Inductive detail_answer : Type :=
  | Json (r : row)
  | NotFound (error : string).

(** [if (!row) return res.status(404).json({ error }); res.json(row)]. *)
Definition get_one (error : string) (d : db) (u : UserId) (id : string)
    (table : list row) : detail_answer :=
  match select_one d u id table with
  | Some r => Json r
  | None => NotFound error
  end.

End One.

End Detail.

(* ================================================================== *)
(** * routes/liquidaciones.ts: PUT /:id/lines                          *)
(* ================================================================== *)

Module LiquidacionesLines.

Import Store Liquidaciones.
Local Open Scope Q_scope.








End LiquidacionesLines.

(* ================================================================== *)
(** * Properties                                                       *)
(* ================================================================== *)

Import Js Store Permissions.
Local Open Scope db_scope.

(** ** Lists without repetition *)

Section Dedup.

Context {A : Type}.
Variable eqb : A -> A -> bool.
Hypothesis eqb_eq : forall x y, eqb x y = true <-> x = y.

Lemma dedup_by_In : forall (l : list A) (x : A), In x (dedup_by eqb l) <-> In x l.
Proof.
  induction l as [|a l IH]; intros x; simpl; [tauto|].
  rewrite filter_In, IH. split.
  - intros [H|[H _]]; auto.
  - intros [H|H]; auto.
    destruct (eqb x a) eqn:E.
    + left. symmetry. now apply eqb_eq.
    + right. split; auto.
Qed.

Lemma dedup_by_NoDup : forall l : list A, NoDup (dedup_by eqb l).
Proof.
  induction l as [|a l IH]; simpl; constructor.
  - rewrite filter_In. intros [_ H].
    assert (E : eqb a a = true) by now apply eqb_eq.
    rewrite E in H. discriminate.
  - now apply NoDup_filter.
Qed.

Lemma dedup_by_id : forall l : list A, NoDup l -> dedup_by eqb l = l.
Proof.
  induction l as [|a l IH]; intros H; simpl; auto.
  inversion H as [|? ? Hn Hd]; subst.
  rewrite IH by assumption. f_equal.
  apply forallb_filter_id. apply forallb_forall. intros y Hy.
  destruct (eqb y a) eqn:E; auto.
  apply eqb_eq in E. subst. contradiction.
Qed.

End Dedup.

Lemma NoDup_same_length {A} (l1 l2 : list A) :
  NoDup l1 -> NoDup l2 -> (forall x, In x l1 <-> In x l2) -> length l1 = length l2.
Proof.
  intros H1 H2 H. apply Nat.le_antisymm.
  - apply NoDup_incl_length; auto. intros x; apply H.
  - apply NoDup_incl_length; auto. intros x; apply H.
Qed.

Lemma pair_eqb_eq : forall a b : string * string, pair_eqb a b = true <-> a = b.
Proof.
  intros [a1 a2] [b1 b2]. unfold pair_eqb. simpl.
  rewrite andb_true_iff, !String.eqb_eq. split.
  - intros [-> ->]. reflexivity.
  - intros H. inversion H. auto.
Qed.

Lemma dedup_In : forall l x, In x (dedup l) <-> In x l.
Proof. apply dedup_by_In. apply String.eqb_eq. Qed.

Lemma dedup_NoDup : forall l, NoDup (dedup l).
Proof. apply dedup_by_NoDup. apply String.eqb_eq. Qed.

Lemma dedup_id : forall l, NoDup l -> dedup l = l.
Proof. apply dedup_by_id. apply String.eqb_eq. Qed.

(** ** The effective access view *)

Lemma user_grants_In : forall d x,
  In x (user_grants d) <->
  exists ur g, In ur (user_roles d) /\ In g (role_fund_accesses d)
               /\ rfa_role_id g = ur_role_id ur
               /\ x = {| efa_user_id := ur_user_id ur;
                         efa_fund_id := rfa_fund_id g;
                         efa_scope := rfa_scope g |}.
Proof.
  intros d x. unfold user_grants. rewrite in_flat_map. split.
  - intros [ur [Hur H]]. apply in_map_iff in H. destruct H as [g [Hx Hg]].
    apply filter_In in Hg. destruct Hg as [Hg E]. apply String.eqb_eq in E.
    exists ur, g. auto.
  - intros [ur [g [Hur [Hg [E Hx]]]]]. exists ur. split; auto.
    apply in_map_iff. exists g. split; auto.
    apply filter_In. split; auto. now apply String.eqb_eq.
Qed.

Lemma scope_max_write_admin : forall a b,
  scope_in_write_admin (scope_max a b) = scope_in_write_admin a || scope_in_write_admin b.
Proof. intros [] []; reflexivity. Qed.

Lemma fold_scope_write_admin : forall u f gs acc,
  scope_in_write_admin
    (fold_left
       (fun acc g =>
          if pair_eqb (efa_user_id g, efa_fund_id g) (u, f)
          then scope_max acc (efa_scope g) else acc)
       gs acc)
  = scope_in_write_admin acc
    || existsb (fun g => pair_eqb (efa_user_id g, efa_fund_id g) (u, f)
                         && scope_in_write_admin (efa_scope g)) gs.
Proof.
  intros u f gs. induction gs as [|g gs IH]; intros acc; simpl.
  - now rewrite orb_false_r.
  - rewrite IH. destruct (pair_eqb (efa_user_id g, efa_fund_id g) (u, f)); simpl.
    + rewrite scope_max_write_admin. now rewrite orb_assoc.
    + reflexivity.
Qed.

Lemma highest_scope_write_admin : forall u f gs,
  scope_in_write_admin (highest_scope u f gs) = true <->
  exists g, In g gs /\ efa_user_id g = u /\ efa_fund_id g = f
            /\ scope_in_write_admin (efa_scope g) = true.
Proof.
  intros u f gs. unfold highest_scope. rewrite fold_scope_write_admin. simpl.
  rewrite existsb_exists. split.
  - intros [g [Hg H]]. apply andb_true_iff in H. destruct H as [E W].
    apply pair_eqb_eq in E. inversion E. exists g. auto.
  - intros [g [Hg [Hu [Hf W]]]]. exists g. split; auto.
    apply andb_true_iff. split; auto. apply pair_eqb_eq. now rewrite Hu, Hf.
Qed.

Lemma view_In : forall d r,
  In r (v_effective_fund_access d) <->
  (exists g, In g (user_grants d) /\ efa_user_id g = efa_user_id r
             /\ efa_fund_id g = efa_fund_id r)
  /\ efa_scope r = highest_scope (efa_user_id r) (efa_fund_id r) (user_grants d).
Proof.
  intros d r. unfold v_effective_fund_access. rewrite in_map_iff. split.
  - intros [[u f] [Hr Hk]]. simpl in Hr. subst r. simpl.
    rewrite (dedup_by_In pair_eqb pair_eqb_eq) in Hk.
    apply in_map_iff in Hk. destruct Hk as [g [E Hg]]. inversion E.
    split; auto. exists g. auto.
  - intros [[g [Hg [Hu Hf]]] Hs].
    exists (efa_user_id r, efa_fund_id r). simpl. split.
    + destruct r as [u f s]. simpl in *. now rewrite Hs.
    + rewrite (dedup_by_In pair_eqb pair_eqb_eq).
      apply in_map_iff. exists g. split; auto. now rewrite Hu, Hf.
Qed.

Lemma has_write_or_admin_true : forall d u f,
  has_write_or_admin d u f = true <->
  exists g, In g (user_grants d) /\ efa_user_id g = u /\ efa_fund_id g = f
            /\ scope_in_write_admin (efa_scope g) = true.
Proof.
  intros d u f. unfold has_write_or_admin. rewrite existsb_exists. split.
  - intros [ur [Hur H]]. apply andb_true_iff in H. destruct H as [Eu H].
    apply existsb_exists in H. destruct H as [g [Hg H]].
    apply andb_true_iff in H. destruct H as [H W].
    apply andb_true_iff in H. destruct H as [Er Ef].
    apply String.eqb_eq in Eu, Er, Ef.
    exists {| efa_user_id := ur_user_id ur; efa_fund_id := rfa_fund_id g;
              efa_scope := rfa_scope g |}.
    simpl. repeat split; auto.
    apply user_grants_In. exists ur, g. auto.
  - intros [x [Hx [Hu [Hf W]]]]. apply user_grants_In in Hx.
    destruct Hx as [ur [g [Hur [Hg [Er Ex]]]]]. subst x. simpl in *.
    exists ur. split; auto. apply andb_true_iff. split.
    + now apply String.eqb_eq.
    + apply existsb_exists. exists g. split; auto.
      rewrite !andb_true_iff, !String.eqb_eq. auto.
Qed.

(** The count of the scope query is the number of requested funds with
    write or admin scope, for a request without repetition. *)
Lemma write_scope_count_sufficient : forall d u fundIds,
  NoDup fundIds ->
  write_scope_count u fundIds d = sufficient_count d u fundIds.
Proof.
  intros d u fundIds Hnd. unfold write_scope_count, sufficient_count.
  apply NoDup_same_length.
  - apply dedup_NoDup.
  - now apply NoDup_filter.
  - intros f. rewrite dedup_In, in_map_iff, filter_In. split.
    + intros [r [Hf Hr]]. apply filter_In in Hr. destruct Hr as [Hr H].
      apply andb_true_iff in H. destruct H as [H W].
      apply andb_true_iff in H. destruct H as [Eu Hin].
      apply String.eqb_eq in Eu. apply existsb_exists in Hin.
      destruct Hin as [f' [Hf' E]]. apply String.eqb_eq in E. subst f.
      subst f'. split; auto.
      apply view_In in Hr. destruct Hr as [_ Hs]. rewrite Hs in W.
      apply highest_scope_write_admin in W.
      apply has_write_or_admin_true.
      destruct W as [g [Hg [Hu [Hff W]]]]. exists g. repeat split; auto; congruence.
    + intros [Hin H]. apply has_write_or_admin_true in H.
      destruct H as [g [Hg [Hu [Hf W]]]].
      exists {| efa_user_id := u; efa_fund_id := f;
                efa_scope := highest_scope u f (user_grants d) |}.
      simpl. split; auto. apply filter_In. split.
      * apply view_In. simpl. split; auto. exists g. auto.
      * simpl. rewrite !andb_true_iff. repeat split.
        -- now apply String.eqb_eq.
        -- apply existsb_exists. exists f. split; auto. now apply String.eqb_eq.
        -- apply highest_scope_write_admin. exists g. auto.
Qed.

(** ** Session code inside a transaction *)

Section Obeys.

Variable P : stmt -> bool.
Variable E : js_error -> Prop.

Lemma obeys_ret : forall A (a : A), obeys P E (ret a).
Proof.
  intros A a c Hc. simpl. repeat split; auto.
  - exists []. now rewrite app_nil_r.
  - discriminate.
Qed.

Lemma obeys_throw : forall A (e : js_error), E e -> obeys P E (@throw A e).
Proof.
  intros A e He c Hc. simpl. repeat split; auto.
  - exists []. now rewrite app_nil_r.
  - intros e' H. inversion H. subst. exact He.
Qed.

Lemma obeys_bind : forall A B (m : M A) (k : A -> M B),
  obeys P E m -> (forall a, obeys P E (k a)) -> obeys P E (bind m k).
Proof.
  intros A B m k Hm Hk c Hc. unfold bind.
  destruct (Hm c Hc) as [H1 [H2 [[l [H3 H4]] H5]]].
  destruct (m c) as [[a|e] c']; simpl in *.
  - destruct (Hk a c' H2) as [K1 [K2 [[l' [K3 K4]] K5]]].
    split; [congruence|]. split; [assumption|]. split; [|exact K5].
    exists (l ++ l'). rewrite K3, H3, app_assoc. split; auto.
    rewrite forallb_app, H4, K4. reflexivity.
  - split; [assumption|]. split; [assumption|]. split.
    + exists l. auto.
    + intros e0 H0. inversion H0. subst. now apply H5.
Qed.

Lemma obeys_for_each : forall A (body : A -> M unit) (l : list A),
  (forall a, obeys P E (body a)) -> obeys P E (for_each l body).
Proof.
  intros A body l Hb. induction l as [|a l IH]; simpl.
  - apply obeys_ret.
  - apply obeys_bind; auto.
Qed.

Lemma obeys_send : forall s, P s = true -> obeys P E (send s).
Proof.
  intros s Hs c Hc. simpl. repeat split; auto.
  - exists [s]. simpl. now rewrite Hs.
  - discriminate.
Qed.

Lemma obeys_mutate : forall s f,
  P s = true -> E database_error -> obeys P E (mutate s f).
Proof.
  intros s f Hs He c Hc. unfold mutate, bind, send. simpl.
  destruct (f (working c)) as [d|]; simpl; rewrite ?Hc; repeat split; auto.
  - exists [s]. simpl. now rewrite Hs.
  - discriminate.
  - exists [s]. simpl. now rewrite Hs.
  - intros e H. inversion H. subst. exact He.
Qed.

Lemma obeys_select : forall A s (f : db -> A), P s = true -> obeys P E (select s f).
Proof.
  intros A s f Hs c Hc. unfold select, bind, send. simpl. repeat split; auto.
  - exists [s]. simpl. now rewrite Hs.
  - discriminate.
Qed.

Lemma obeys_next_uuid : forall sch, obeys P E (next_uuid sch).
Proof.
  intros sch c Hc. simpl. repeat split; auto.
  - exists []. now rewrite app_nil_r.
  - discriminate.
Qed.

End Obeys.

Lemma obeys_weaken : forall (P Q : stmt -> bool) (E F : js_error -> Prop) A (m : M A),
  (forall s, P s = true -> Q s = true) -> (forall e, E e -> F e) ->
  obeys P E m -> obeys Q F m.
Proof.
  intros P Q E F A m HP HE Hm c Hc.
  destruct (Hm c Hc) as [H1 [H2 [[l [H3 H4]] H5]]].
  repeat split; auto.
  exists l. split; auto.
  rewrite forallb_forall in *. auto.
Qed.

(** [withUser] on a fresh connection, step by step. *)
Lemma withUser_unfold : forall A (u : UserId) (fn : M A) (d : db) (seq : nat),
  withUser u fn (connect d seq) =
  match fn (opened d seq u) with
  | (Return a, c') => (Return a, snd (query_commit c'))
  | (Throw e, c') => (Throw e, snd (query_rollback c'))
  end.
Proof.
  intros A u fn d seq.
  unfold withUser, try_catch, bind at 1 2 3. 
  unfold query_begin at 1, set_current_user, bind at 1, send, connect, sent. simpl.
  fold (opened d seq u).
  destruct (fn (opened d seq u)) as [[a|e] c']; reflexivity.
Qed.

(** Around code that stays inside the transaction: a throw leaves the
    committed database as it was; a return commits what the code did. *)
Lemma withUser_fresh : forall A (P : stmt -> bool) (E : js_error -> Prop)
    (u : UserId) (fn : M A) (d : db) (seq : nat),
  obeys P E fn ->
  let c0 := opened d seq u in
  exists l, forallb P l = true
    /\ log (snd (fn c0)) = [Begin; SetCurrentUser u] ++ l
    /\ match fst (fn c0) with
       | Return a =>
           withUser u fn (connect d seq)
           = (Return a,
              {| committed := working (snd (fn c0)); working := working (snd (fn c0));
                 in_tx := false; uuid_seq := uuid_seq (snd (fn c0));
                 log := [Begin; SetCurrentUser u] ++ l ++ [Commit] |})
       | Throw e =>
           E e
           /\ withUser u fn (connect d seq)
              = (Throw e,
                 {| committed := d; working := d;
                    in_tx := false; uuid_seq := uuid_seq (snd (fn c0));
                    log := [Begin; SetCurrentUser u] ++ l ++ [Rollback] |})
       end.
Proof.
  intros A P E u fn d seq Hfn c0.
  destruct (Hfn c0 eq_refl) as [H1 [H2 [[l [H3 H4]] H5]]].
  exists l. split; auto. split; auto.
  rewrite withUser_unfold. fold c0.
  destruct (fn c0) as [[a|e] c'] eqn:Efn; simpl in *.
  - unfold sent. simpl. rewrite H2, H3. reflexivity.
  - split; [now apply H5|]. unfold sent. simpl. rewrite H2, H3, H1. reflexivity.
Qed.

(** ** The fund-scope gate *)

Import Transactions.

Lemma assertWriteForFunds_run : forall u fundIds c,
  fundIds <> [] ->
  assertWriteForFunds u fundIds c =
  (if write_scope_count u fundIds (working c) =? length fundIds
   then Return tt else Throw forbidden,
   sent c (SelectWriteScopeCount u fundIds)).
Proof.
  intros u fundIds c Hne. unfold assertWriteForFunds.
  destruct fundIds as [|f r]; [contradiction|].
  cbn [length Nat.eqb]. unfold select, bind, send, sent. cbn [working].
  destruct (write_scope_count u (f :: r) _ =? S (length r)); reflexivity.
Qed.

Lemma assertWriteForFunds_obeys : forall u fundIds,
  obeys is_scope_query (fun e => e = forbidden) (assertWriteForFunds u fundIds).
Proof.
  intros u fundIds. unfold assertWriteForFunds.
  destruct (length fundIds =? 0).
  - apply obeys_ret.
  - apply obeys_bind.
    + now apply obeys_select.
    + intros cnt. destruct (negb (cnt =? length fundIds)).
      * now apply obeys_throw.
      * apply obeys_ret.
Qed.

(** C10: called with an empty fund set, the fund-scope gate returns at
    once: it succeeds for every user, sends no statement (no scope query
    in particular) and leaves the connection as it found it. *)
Theorem assertWriteForFunds_empty_passes :
  forall (u : UserId) (c : conn),
    assertWriteForFunds u [] c = (Return tt, c)
    /\ log (snd (assertWriteForFunds u [] c)) = log c.
Proof. intros u c. split; reflexivity. Qed.

(** The request of a POST whose allocations pass the checks on emptiness
    and ratio sum, and that the gate refuses, is rejected with 403 and no
    row is written: only the scope query reaches the store. *)
Lemma post_transaction_forbidden : forall sch u input d seq,
  let allocations := build_allocations input in
  let fundIds := dedup (map fund_id allocations) in
  (length allocations =? 0) = false ->
  ratio_sum_off allocations = false ->
  sufficient_count d u fundIds <> length fundIds ->
  serve (post_transaction sch u (ParseSuccess input)) d seq
  = (Throw forbidden, d,
     [Begin; SetCurrentUser u; SelectWriteScopeCount u fundIds; Rollback]).
Proof.
  intros sch u input d seq allocations fundIds Hlen Hsum Hcnt.
  assert (Hne : fundIds <> []).
  { unfold fundIds. destruct allocations as [|a r]; [discriminate|]. simpl. discriminate. }
  unfold serve, post_transaction. fold allocations. rewrite Hlen, Hsum. fold fundIds.
  unfold bind at 1. rewrite withUser_unfold.
  unfold bind at 1. rewrite assertWriteForFunds_run by assumption.
  cbn [working opened].
  rewrite write_scope_count_sufficient by apply dedup_NoDup.
  destruct (sufficient_count d u fundIds =? _) eqn:Ecnt;
    [apply Nat.eqb_eq in Ecnt; contradiction|].
  reflexivity.
Qed.

Lemma patch_transaction_forbidden : forall sch u txId body l d seq,
  let fundIds := dedup (map fund_id l) in
  prepare_allocations body = Return (Some l) ->
  l <> [] ->
  sufficient_count d u fundIds <> length fundIds ->
  serve (patch_transaction sch u txId (ParseSuccess body)) d seq
  = (Throw forbidden, d,
     [Begin; SetCurrentUser u; SelectWriteScopeCount u fundIds; Rollback]).
Proof.
  intros sch u txId body l d seq fundIds Hprep Hl Hcnt.
  assert (Hne : fundIds <> []).
  { unfold fundIds. destruct l as [|a r]; [contradiction|]. simpl. discriminate. }
  unfold serve, patch_transaction.
  unfold bind at 1. rewrite withUser_unfold.
  unfold bind at 1. unfold lift. rewrite Hprep.
  unfold bind at 1. fold fundIds. rewrite assertWriteForFunds_run by assumption.
  cbn [working opened].
  rewrite write_scope_count_sufficient by apply dedup_NoDup.
  destruct (sufficient_count d u fundIds =? _) eqn:Ecnt;
    [apply Nat.eqb_eq in Ecnt; contradiction|].
  reflexivity.
Qed.

Lemma prepare_allocations_nonempty : forall body l,
  prepare_allocations body = Return (Some l) -> l <> [].
Proof.
  intros body l. unfold prepare_allocations.
  destruct (truthy (pa_fund_id body)).
  - destruct (pa_fund_id body); intros H; inversion H; discriminate.
  - destruct (pa_allocations body) as [l'|]; [|discriminate].
    destruct (length l' =? 0) eqn:E; [discriminate|].
    destruct (ratio_sum_off l'); [discriminate|].
    intros H; inversion H; subst. intros ->. discriminate.
Qed.

(** C4: for a non-empty set of fund identifiers, the fund-scope gate
    throws the 403 error exactly when the number of requested funds on
    which the user has write or admin scope differs from the size of the
    set, and returns otherwise; a POST or PATCH of transactions that the
    gate refuses writes nothing at all (the scope query and the rollback
    are the only statements after the session is opened), so no write over
    the allowed subset alone takes place. *)
Theorem fund_scope_gate_fails_closed :
  forall (u : UserId) (fundIds : list FundId) (c : conn),
    fundIds <> [] -> NoDup fundIds ->
    (fst (assertWriteForFunds u fundIds c) = Throw forbidden
     <-> sufficient_count (working c) u fundIds <> length fundIds)
    /\ (fst (assertWriteForFunds u fundIds c) = Return tt
        <-> sufficient_count (working c) u fundIds = length fundIds)
    /\ status forbidden = Some 403
    /\ (forall sch input d seq,
          (length (build_allocations input) =? 0) = false ->
          ratio_sum_off (build_allocations input) = false ->
          dedup (map fund_id (build_allocations input)) = fundIds ->
          sufficient_count d u fundIds <> length fundIds ->
          serve (post_transaction sch u (ParseSuccess input)) d seq
          = (Throw forbidden, d,
             [Begin; SetCurrentUser u; SelectWriteScopeCount u fundIds; Rollback]))
    /\ (forall sch txId body l d seq,
          prepare_allocations body = Return (Some l) ->
          dedup (map fund_id l) = fundIds ->
          sufficient_count d u fundIds <> length fundIds ->
          serve (patch_transaction sch u txId (ParseSuccess body)) d seq
          = (Throw forbidden, d,
             [Begin; SetCurrentUser u; SelectWriteScopeCount u fundIds; Rollback])).
Proof.
  intros u fundIds c Hne Hnd.
  assert (Hrun := assertWriteForFunds_run u fundIds c Hne).
  rewrite write_scope_count_sufficient in Hrun by assumption.
  rewrite Hrun. cbn [fst].
  destruct (sufficient_count (working c) u fundIds =? _) eqn:E.
  - apply Nat.eqb_eq in E. repeat split; try (intros; congruence); auto.
    + intros sch input d seq H1 H2 H3 H4. subst fundIds.
      now apply post_transaction_forbidden.
    + intros sch txId body l d seq H1 H2 H3. subst fundIds.
      apply patch_transaction_forbidden; auto.
      now apply prepare_allocations_nonempty with body.
  - apply Nat.eqb_neq in E. repeat split; try (intros; congruence); auto.
    + intros sch input d seq H1 H2 H3 H4. subst fundIds.
      now apply post_transaction_forbidden.
    + intros sch txId body l d seq H1 H2 H3. subst fundIds.
      apply patch_transaction_forbidden; auto.
      now apply prepare_allocations_nonempty with body.
Qed.

(** ** Creating and patching a transaction *)

Lemma insert_transaction_obeys : forall sch a b c d e f,
  obeys is_mutation (fun e => e = database_error) (insert_transaction sch a b c d e f).
Proof.
  intros. unfold insert_transaction.
  apply obeys_bind; [apply obeys_next_uuid|]. intros id.
  apply obeys_bind; [now apply obeys_mutate|]. intros _. apply obeys_ret.
Qed.

Lemma insert_allocation_obeys : forall sch txId f r,
  obeys is_mutation (fun e => e = database_error) (insert_allocation sch txId f r).
Proof. intros. unfold insert_allocation. now apply obeys_mutate. Qed.

Lemma insert_allocations_obeys : forall sch txId l,
  obeys is_mutation (fun e => e = database_error)
    (for_each l (fun a => insert_allocation sch txId (fund_id a) (ratio a))).
Proof. intros. apply obeys_for_each. intros a. apply insert_allocation_obeys. Qed.

Ltac store_step :=
  eapply obeys_weaken;
  [ | | first [ apply insert_transaction_obeys | apply insert_allocations_obeys
              | apply assertWriteForFunds_obeys ] ];
  [ intros s; destruct s; simpl; auto; discriminate
  | intros e He; unfold gate_or_store; auto ].

Ltac unit_step := first [ apply obeys_ret | apply obeys_mutate; [reflexivity | now right] ].

(** What runs inside [withUser] in POST /transactions. *)
Lemma post_session_obeys : forall sch u input fundIds allocations,
  obeys is_data_stmt gate_or_store
    (assertWriteForFunds u fundIds ;;
     txId <- insert_transaction sch (in_account_id input) (in_tx_date input)
               (in_description input) (in_amount input) (in_type input)
               (in_category_id input) ;;
     for_each allocations (fun a => insert_allocation sch txId (fund_id a) (ratio a)) ;;
     ret txId).
Proof.
  intros. apply obeys_bind; [store_step|]. intros _.
  apply obeys_bind; [store_step|]. intros txId.
  apply obeys_bind; [store_step|]. intros _. apply obeys_ret.
Qed.

(** What runs inside [withUser] in PATCH /transactions/:id once the
    allocations are prepared. *)
Lemma patch_session_obeys : forall sch u txId body newAlloc,
  obeys is_data_stmt gate_or_store
    (match newAlloc with
     | Some l => assertWriteForFunds u (dedup (map fund_id l))
     | None => ret tt
     end ;;
     update_transaction sch txId (patch_fields body) ;;
     match newAlloc with
     | Some l =>
         delete_allocations txId ;;
         for_each l (fun a => insert_allocation sch txId (fund_id a) (ratio a))
     | None => ret tt
     end).
Proof.
  intros. apply obeys_bind.
  { destruct newAlloc; [store_step|apply obeys_ret]. }
  intros _. apply obeys_bind.
  { apply obeys_mutate; [reflexivity|now right]. }
  intros _. destruct newAlloc; [|apply obeys_ret].
  apply obeys_bind.
  { apply obeys_mutate; [reflexivity|now right]. }
  intros _. store_step.
Qed.

Lemma ratio_sum_error_not_gate_or_store : ~ gate_or_store ratio_sum_error.
Proof. intros [H|H]; discriminate. Qed.

Lemma build_allocations_effective : forall input,
  (forall f, in_fund_id input = Some f -> f <> "") ->
  build_allocations input = effective_allocations input.
Proof.
  intros input Hf. unfold build_allocations, effective_allocations, truthy.
  destruct (in_allocations input) as [[|a r]|]; simpl; try reflexivity;
    destruct (in_fund_id input) as [f|] eqn:E; try reflexivity;
    destruct f; simpl; try reflexivity; now destruct (Hf "" eq_refl).
Qed.

(** C2: the effective allocation set of a POST body is the allocations
    array when it has elements, else the single pair of [fund_id] and
    ratio 1 when a fund id is present; when that set is empty the request
    is rejected with status 400 before the store is reached, so that no
    transaction row is created. (A fund id accepted by the schema is a
    UUID, hence not the empty string.) *)
Theorem post_effective_allocation_set :
  forall (sch : schema) (u : UserId) (input : TxInput) (d : db) (seq : nat),
    (forall f, in_fund_id input = Some f -> f <> "") ->
    build_allocations input = effective_allocations input
    /\ (effective_allocations input = [] ->
        serve (post_transaction sch u (ParseSuccess input)) d seq
        = (Throw fund_required, d, [])
        /\ status fund_required = Some 400)
    /\ (effective_allocations input <> [] ->
        fst (fst (serve (post_transaction sch u (ParseSuccess input)) d seq))
        <> Throw fund_required).
Proof.
  intros sch u input d seq Hf.
  assert (Hb := build_allocations_effective input Hf).
  split; [exact Hb|]. split.
  - intros He. unfold serve, post_transaction. rewrite Hb, He. split; reflexivity.
  - intros He. unfold serve, post_transaction. rewrite Hb.
    destruct (effective_allocations input) as [|a r] eqn:Ea; [contradiction|].
    cbn [length Nat.eqb].
    destruct (ratio_sum_off (a :: r)); [simpl; discriminate|].
    unfold bind at 1. rewrite withUser_unfold.
    destruct (withUser_fresh _ is_data_stmt gate_or_store u _ d seq
                (post_session_obeys sch u input (dedup (map fund_id (a :: r))) (a :: r)))
      as [l [_ [_ H]]].
    match goal with
    | |- context [match ?m (opened d seq u) with _ => _ end] =>
        destruct (m (opened d seq u)) as [[x|e] c'] eqn:Em
    end; simpl in *.
    + discriminate.
    + destruct H as [[H|H] _]; subst e; discriminate.
Qed.

Lemma post_effective_allocation_set_witness :
  build_allocations (Examples.post_input (Some "f1") None)
  = [{| fund_id := "f1"; ratio := 1%float |}]
  /\ serve (post_transaction Examples.sch "beto"
              (ParseSuccess (Examples.post_input None (Some [])))) Examples.d0 7
     = (Throw fund_required, Examples.d0, []).
Proof.
  split.
  - apply (proj1 (post_effective_allocation_set Examples.sch "beto"
                    (Examples.post_input (Some "f1") None) Examples.d0 7
                    ltac:(intros f H; inversion H; discriminate))).
  - apply (proj2 (post_effective_allocation_set Examples.sch "beto"
                    (Examples.post_input None (Some [])) Examples.d0 7
                    ltac:(intros f H; discriminate))).
    reflexivity.
Defined.

Lemma session_not_ratio_sum_error :
  forall A (u : UserId) (fn : M A) (d : db) (seq : nat) (first : stmt),
    obeys is_data_stmt gate_or_store fn ->
    (exists rest, log (snd (fn (opened d seq u)))
                  = Begin :: SetCurrentUser u :: first :: rest) ->
    fst (withUser u fn (connect d seq)) <> Throw ratio_sum_error
    /\ exists rest, log (snd (withUser u fn (connect d seq)))
                    = Begin :: SetCurrentUser u :: first :: rest.
Proof.
  intros A u fn d seq first Hfn [rest Hlog].
  destruct (withUser_fresh _ _ _ u fn d seq Hfn) as [l [_ [Hl H]]].
  rewrite Hlog in Hl. simpl in Hl. inversion Hl as [Hl']. clear Hl.
  destruct (fst (fn (opened d seq u))) as [a|e].
  - rewrite H. simpl. split; [discriminate|]. rewrite <- Hl'. simpl. eauto.
  - destruct H as [He H]. rewrite H. simpl. split.
    + intros Hc. inversion Hc. subst e. now apply ratio_sum_error_not_gate_or_store.
    + rewrite <- Hl'. simpl. eauto.
Qed.

Lemma serve_then_ret : forall A B (m : M A) (g : A -> B) (d : db) (seq : nat),
  serve (x <- m ;; ret (g x)) d seq =
  match m (connect d seq) with
  | (Return a, c) => (Return (g a), committed c, log c)
  | (Throw e, c) => (Throw e, committed c, log c)
  end.
Proof.
  intros. unfold serve, bind. destruct (m (connect d seq)) as [[a|e] c]; reflexivity.
Qed.

Lemma log_extends_bind : forall A B (m : M A) (k : A -> M B) c pre,
  obeys is_data_stmt gate_or_store m ->
  (forall a, obeys is_data_stmt gate_or_store (k a)) ->
  in_tx c = true ->
  (exists rest, log (snd (m c)) = pre ++ rest) ->
  exists rest, log (snd (bind m k c)) = pre ++ rest.
Proof.
  intros A B m k c pre Hm Hk Hc [rest Hlog]. unfold bind.
  destruct (Hm c Hc) as [_ [H2 _]].
  destruct (m c) as [[a|e] c']; simpl in *.
  - destruct (Hk a c' H2) as [_ [_ [[l [K3 _]] _]]].
    exists (rest ++ l). now rewrite K3, Hlog, app_assoc.
  - exists rest. assumption.
Qed.

(** C1: in POST /transactions and PATCH /transactions/:id, a non-empty
    allocation set whose ratio sum is off 1 by more than 1e-9 is rejected
    with status 400 and message 'allocations ratio sum must be 1', and no
    insert or update has been sent by then (POST has sent nothing, PATCH
    only begin, set_current_user and rollback); a set whose sum is within
    1e-9 of 1 passes the check: the request goes on to the fund-scope gate
    and never ends in that error. The sum and the comparison are those of
    binary64 numbers. *)
Theorem ratio_sum_must_be_one :
  forall (sch : schema) (u : UserId) (d : db) (seq : nat),
    (forall input,
       build_allocations input <> [] ->
       (ratio_sum_off (build_allocations input) = true ->
        serve (post_transaction sch u (ParseSuccess input)) d seq
        = (Throw ratio_sum_error, d, []))
       /\ (ratio_sum_off (build_allocations input) = false ->
           fst (fst (serve (post_transaction sch u (ParseSuccess input)) d seq))
           <> Throw ratio_sum_error
           /\ exists rest,
               snd (serve (post_transaction sch u (ParseSuccess input)) d seq)
               = Begin :: SetCurrentUser u
                 :: SelectWriteScopeCount u (dedup (map fund_id (build_allocations input)))
                 :: rest))
    /\ (forall txId body l,
          truthy (pa_fund_id body) = false ->
          pa_allocations body = Some l ->
          l <> [] ->
          (ratio_sum_off l = true ->
           serve (patch_transaction sch u txId (ParseSuccess body)) d seq
           = (Throw ratio_sum_error, d, [Begin; SetCurrentUser u; Rollback]))
          /\ (ratio_sum_off l = false ->
              fst (fst (serve (patch_transaction sch u txId (ParseSuccess body)) d seq))
              <> Throw ratio_sum_error
              /\ exists rest,
                  snd (serve (patch_transaction sch u txId (ParseSuccess body)) d seq)
                  = Begin :: SetCurrentUser u
                    :: SelectWriteScopeCount u (dedup (map fund_id l)) :: rest))
    /\ status ratio_sum_error = Some 400
    /\ message ratio_sum_error = "allocations ratio sum must be 1"
    /\ (forall l,
          ratio_sum_off l
          = PrimFloat.ltb 1e-9
              (PrimFloat.abs
                 (fold_left (fun acc a => acc + ratio a) l 0 - 1))%float).
Proof.
  intros sch u d seq. split; [|split; [|repeat split]].
  - intros input Hne.
    assert (Hlen : (length (build_allocations input) =? 0) = false).
    { destruct (build_allocations input); [contradiction|reflexivity]. }
    split; intros Hsum.
    + unfold serve, post_transaction. rewrite Hlen, Hsum. reflexivity.
    + set (fundIds := dedup (map fund_id (build_allocations input))).
      assert (Hf : fundIds <> []).
      { unfold fundIds. destruct (build_allocations input); [contradiction|].
        simpl. discriminate. }
      pose proof (post_session_obeys sch u input fundIds (build_allocations input)) as Hob.
      match type of Hob with obeys _ _ ?fn =>
        destruct (session_not_ratio_sum_error _ u fn d seq
                    (SelectWriteScopeCount u fundIds) Hob) as [H1 [rest H2]]
      end.
      { apply log_extends_bind with (pre := [Begin; SetCurrentUser u; SelectWriteScopeCount u fundIds]).
        - store_step.
        - intros _. apply obeys_bind.
          + store_step.
          + intros txId. apply obeys_bind; [|intros; apply obeys_ret].
            store_step.
        - reflexivity.
        - rewrite assertWriteForFunds_run by assumption. exists []. reflexivity. }
      unfold post_transaction. rewrite Hlen, Hsum. fold fundIds.
      rewrite serve_then_ret.
      match goal with
      | |- context [withUser u ?fn (connect d seq)] =>
          destruct (withUser u fn (connect d seq)) as [[x|e] c'] eqn:Ew
      end; simpl in *.
      * split; [discriminate|]. exists rest. assumption.
      * split; [|exists rest; assumption].
        intros Hc. apply H1. inversion Hc. reflexivity.
  - intros txId body l Hfund Hal Hne.
    assert (Hlen : (length l =? 0) = false).
    { destruct l; [contradiction|reflexivity]. }
    split; intros Hsum.
    + unfold serve, patch_transaction. unfold bind at 1. rewrite withUser_unfold.
      unfold bind at 1, lift, prepare_allocations.
      rewrite Hfund, Hal, Hlen, Hsum. reflexivity.
    + set (fundIds := dedup (map fund_id l)).
      assert (Hf : fundIds <> []).
      { unfold fundIds. destruct l; [contradiction|]. simpl. discriminate. }
      assert (Hprep : prepare_allocations body = Return (Some l)).
      { unfold prepare_allocations. now rewrite Hfund, Hal, Hlen, Hsum. }
      pose proof (patch_session_obeys sch u txId body (Some l)) as Hob.
      match type of Hob with obeys _ _ ?fn =>
        destruct (session_not_ratio_sum_error _ u fn d seq
                    (SelectWriteScopeCount u fundIds) Hob) as [H1 [rest H2]]
      end.
      { apply log_extends_bind with (pre := [Begin; SetCurrentUser u; SelectWriteScopeCount u fundIds]).
        - store_step.
        - intros _. apply obeys_bind.
          + apply obeys_mutate; [reflexivity|now right].
          + intros _. apply obeys_bind.
            * apply obeys_mutate; [reflexivity|now right].
            * intros _. store_step.
        - reflexivity.
        - fold fundIds. rewrite assertWriteForFunds_run by assumption.
          exists []. reflexivity. }
      unfold patch_transaction.
      rewrite (serve_then_ret _ _ _ (fun _ => {| res_status := 200; res_body := OkId txId |})).
      match goal with
      | |- context [withUser u ?fn (connect d seq)] =>
          replace (withUser u fn (connect d seq))
            with (withUser u
                    (match Some l with
                     | Some l => assertWriteForFunds u (dedup (map fund_id l))
                     | None => ret tt
                     end ;;
                     update_transaction sch txId (patch_fields body) ;;
                     match Some l with
                     | Some l =>
                         delete_allocations txId ;;
                         for_each l (fun a => insert_allocation sch txId (fund_id a) (ratio a))
                     | None => ret tt
                     end) (connect d seq))
      end.
      2:{ rewrite !withUser_unfold. unfold bind at 4, lift. rewrite Hprep. reflexivity. }
      clear Hob.
      match goal with
      | |- context [withUser u ?fn (connect d seq)] =>
          destruct (withUser u fn (connect d seq)) as [[x|e] c'] eqn:Ew
      end; simpl in *.
      * split; [discriminate|]. exists rest. assumption.
      * split; [|exists rest; assumption].
        intros Hc. apply H1. inversion Hc. reflexivity.
Qed.

Lemma ratio_sum_must_be_one_witness :
  serve (post_transaction Examples.sch "beto"
           (ParseSuccess (Examples.post_input None (Some Examples.thirds))))
        Examples.d0 7
  = (Throw ratio_sum_error, Examples.d0, [])
  /\ serve (patch_transaction Examples.sch "beto" "tx-old"
              (ParseSuccess (Examples.patch_body None (Some Examples.thirds))))
           Examples.d0 7
     = (Throw ratio_sum_error, Examples.d0, [Begin; SetCurrentUser "beto"; Rollback])
  /\ fst (fst (serve (post_transaction Examples.sch "beto"
                        (ParseSuccess (Examples.post_input None (Some Examples.halves))))
                     Examples.d0 7))
     <> Throw ratio_sum_error.
Proof.
  pose proof (ratio_sum_must_be_one Examples.sch "beto" Examples.d0 7) as [Hpost [Hpatch _]].
  split; [|split].
  - apply (Hpost (Examples.post_input None (Some Examples.thirds))).
    + discriminate.
    + vm_compute. reflexivity.
  - apply (Hpatch "tx-old" (Examples.patch_body None (Some Examples.thirds)) Examples.thirds).
    + reflexivity.
    + reflexivity.
    + discriminate.
    + vm_compute. reflexivity.
  - apply (Hpost (Examples.post_input None (Some Examples.halves))).
    + discriminate.
    + vm_compute. reflexivity.
Defined.

(** ** Reassigning the allocations of a transaction *)

Lemma mutate_run : forall s f c,
  mutate s f c =
  match f (working c) with
  | Some d' =>
      (Return tt,
       {| committed := if in_tx c then committed c else d';
          working := d'; in_tx := in_tx c; uuid_seq := uuid_seq c;
          log := log c ++ [s] |})
  | None => (Throw database_error, sent c s)
  end.
Proof.
  intros s f c. unfold mutate, bind, send, sent. simpl.
  destruct (f (working c)); reflexivity.
Qed.




(** A reassignment whose second insert the store refuses: the request
    fails, the delete and the first insert are undone. *)
Lemma patch_refused_insert_rolls_back :
  serve (patch_transaction Examples.sch "beto" "tx-old"
           (ParseSuccess
              (Examples.patch_body None
                 (Some [ {| fund_id := "f1"; ratio := 0.5%float |};
                         {| fund_id := "f-closed"; ratio := 0.5%float |} ]))))
        Examples.d0 7
  = (Throw database_error, Examples.d0,
     [ Begin; SetCurrentUser "beto";
       SelectWriteScopeCount "beto" ["f1"; "f-closed"];
       UpdateTransaction "tx-old"
         (patch_fields
            (Examples.patch_body None
               (Some [ {| fund_id := "f1"; ratio := 0.5%float |};
                       {| fund_id := "f-closed"; ratio := 0.5%float |} ])));
       DeleteAllocations "tx-old";
       InsertAllocation
         {| ta_transaction_id := "tx-old"; ta_fund_id := "f1"; ta_ratio := 0.5%float |};
       InsertAllocation
         {| ta_transaction_id := "tx-old"; ta_fund_id := "f-closed"; ta_ratio := 0.5%float |};
       Rollback ]).
Proof. vm_compute. reflexivity. Qed.

(** ** The CSV import *)

Import TransactionsImport.

Section ImportFacts.

Variable is_uuid : string -> bool.

Lemma validate_rows_split : forall rawRows i rows errors,
  validate_rows is_uuid rawRows i rows errors
  = (rows ++ valid_rows is_uuid rawRows, errors ++ failing_rows is_uuid rawRows i).
Proof.
  induction rawRows as [|raw rest IH]; intros i rows errors; simpl.
  - now rewrite !app_nil_r.
  - destruct (Row_safeParse is_uuid (to_candidate raw)) as [data|l];
      rewrite IH, <- app_assoc; reflexivity.
Qed.

(** The entries are those of the failing rows, each at its index plus 2. *)
Lemma failing_rows_In : forall rawRows i e,
  In e (failing_rows is_uuid rawRows i) <->
  exists k raw l,
    nth_error rawRows k = Some raw
    /\ Row_safeParse is_uuid (to_candidate raw) = inr l
    /\ e = {| index := (i + k) + 2; error := row_error_message l; row := raw |}.
Proof.
  induction rawRows as [|raw rest IH]; intros i e; simpl.
  - split; [contradiction|]. intros [k [raw [l [H _]]]]. destruct k; discriminate.
  - destruct (Row_safeParse is_uuid (to_candidate raw)) as [data|l] eqn:E.
    + rewrite IH. split.
      * intros [k [r [l [H1 [H2 H3]]]]]. exists (S k), r, l. simpl.
        repeat split; auto. rewrite H3. f_equal; lia.
      * intros [k [r [l [H1 [H2 H3]]]]]. destruct k as [|k]; simpl in H1.
        -- inversion H1. subst r. congruence.
        -- exists k, r, l. repeat split; auto. rewrite H3. f_equal; lia.
    + simpl. rewrite IH. split.
      * intros [H|[k [r [l' [H1 [H2 H3]]]]]].
        -- exists 0, raw, l. simpl. repeat split; auto. rewrite <- H.
           f_equal; lia.
        -- exists (S k), r, l'. simpl. repeat split; auto. rewrite H3.
           f_equal; lia.
      * intros [k [r [l' [H1 [H2 H3]]]]]. destruct k as [|k]; simpl in H1.
        -- left. inversion H1. subst r. rewrite H3.
           assert (l' = l) by congruence. subst l'. f_equal; lia.
        -- right. exists k, r, l'. repeat split; auto. rewrite H3.
           f_equal; lia.
Qed.

Lemma failing_rows_nil : forall rawRows i,
  failing_rows is_uuid rawRows i = [] <->
  forall k raw, nth_error rawRows k = Some raw ->
    exists data, Row_safeParse is_uuid (to_candidate raw) = inl data.
Proof.
  intros rawRows i. split.
  - intros H k raw Hk.
    destruct (Row_safeParse is_uuid (to_candidate raw)) as [data|l] eqn:E; eauto.
    assert (Hin : In {| index := (i + k) + 2; error := row_error_message l; row := raw |}
                     (failing_rows is_uuid rawRows i)).
    { apply failing_rows_In. exists k, raw, l. auto. }
    rewrite H in Hin. contradiction.
  - intros H. destruct (failing_rows is_uuid rawRows i) as [|e r] eqn:E; auto.
    assert (Hin : In e (failing_rows is_uuid rawRows i)) by (rewrite E; now left).
    apply failing_rows_In in Hin. destruct Hin as [k [raw [l [H1 [H2 _]]]]].
    destruct (H k raw H1) as [data Hd]. congruence.
Qed.

End ImportFacts.

Lemma dry_run_flag : forall dry,
  String.eqb (match dry with Some s => s | None => "0" end) "1" = true <-> dry = Some "1".
Proof.
  intros [s|]; simpl.
  - rewrite String.eqb_eq. split; congruence.
  - split; discriminate.
Qed.

(** C8: a CSV batch with at least one invalid row is answered 422 with
    one entry for every failing row and no other, each giving the row's
    message and its line number, the row's index plus 2; the store is not
    reached, so that no row of the batch is inserted. In dry-run mode
    nothing is sent to the store either, whatever the batch. *)
Theorem csv_import_rejects_whole_batch :
  forall (is_uuid : string -> bool) (sch : schema) (u : UserId)
         (dry : option string) (file : option csv) (d : db) (seq : nat),
    let req := {| req_user := u; req_dry_run := dry; req_file := file |} in
    (forall rawRows,
       file = Some (CsvRows rawRows) ->
       (exists k raw l,
          nth_error rawRows k = Some raw
          /\ Row_safeParse is_uuid (to_candidate raw) = inr l) ->
       exists errors,
         serve (import_transactions is_uuid sch req) d seq
         = (Return {| imp_status := 422;
                      imp_body := InvalidRows "CSV contiene filas inválidas" errors
                                    (length (valid_rows is_uuid rawRows)) |},
            d, [])
         /\ forall e,
             In e errors <->
             exists k raw l,
               nth_error rawRows k = Some raw
               /\ Row_safeParse is_uuid (to_candidate raw) = inr l
               /\ e = {| index := k + 2; error := row_error_message l; row := raw |})
    /\ (dry = Some "1" ->
        snd (fst (serve (import_transactions is_uuid sch req) d seq)) = d
        /\ snd (serve (import_transactions is_uuid sch req) d seq) = []).
Proof.
  intros is_uuid sch u dry file d seq req. split.
  - intros rawRows Hfile Hbad.
    exists (failing_rows is_uuid rawRows 0). split.
    + unfold serve, import_transactions, try_catch. subst req. cbn [req_file req_user req_dry_run].
      rewrite Hfile, validate_rows_split. cbn [app].
      destruct (failing_rows is_uuid rawRows 0) as [|e r] eqn:E.
      * destruct Hbad as [k [raw [l [H1 H2]]]].
        destruct (proj1 (failing_rows_nil is_uuid rawRows 0) E k raw H1) as [data Hd].
        congruence.
      * reflexivity.
    + intros e. rewrite failing_rows_In. simpl. tauto.
  - intros Hdry. apply dry_run_flag in Hdry.
    unfold serve, import_transactions, try_catch. subst req.
    cbn [req_file req_user req_dry_run]. rewrite Hdry.
    destruct file as [[rawRows|msg]|]; try (split; reflexivity).
    destruct (validate_rows is_uuid rawRows 0 [] []) as [rows errors].
    destruct (negb (length errors =? 0)); split; reflexivity.
Qed.

Lemma csv_import_rejects_whole_batch_witness :
  exists errors,
    serve (import_transactions Examples.is_uuid Examples.sch
             {| req_user := "beto"; req_dry_run := None;
                req_file := Some (CsvRows Examples.bad_batch) |})
          Examples.d0 7
    = (Return
         {| imp_status := 422;
            imp_body := InvalidRows "CSV contiene filas inválidas" errors 2 |},
       Examples.d0, [])
    /\ In {| index := 3;
             error := "amount: Number must be greater than 0; fund_id: Invalid uuid";
             row := Examples.csv_row "n/a" "debit" "caja" |} errors.
Proof.
  destruct (csv_import_rejects_whole_batch Examples.is_uuid Examples.sch "beto" None
              (Some (CsvRows Examples.bad_batch)) Examples.d0 7) as [H _].
  destruct (H Examples.bad_batch eq_refl) as [errors [Hs Hin]].
  - exists 1, (Examples.csv_row "n/a" "debit" "caja").
    eexists. split; [reflexivity|]. vm_compute. reflexivity.
  - exists errors. split; [exact Hs|].
    apply Hin. exists 1, (Examples.csv_row "n/a" "debit" "caja").
    eexists. split; [reflexivity|]. split; [vm_compute; reflexivity|].
    vm_compute. reflexivity.
Defined.

(** ** Runs that differ in the user and in the access tables *)















(** ** What an accepted batch leaves in the ledger *)

Lemma ledger_append_nil : forall d, ledger_append d [] [] = d.
Proof. intros []. unfold ledger_append. simpl. now rewrite !app_nil_r. Qed.

Lemma ledger_append_append : forall d a b a' b',
  ledger_append (ledger_append d a b) a' b' = ledger_append d (a ++ a') (b ++ b').
Proof. intros. unfold ledger_append. simpl. now rewrite !app_assoc. Qed.











(** The accepted batch of the sample data, imported by a user with no
    grant on its second fund and none at all on the database without
    grants: both rows are stored. *)
Lemma import_example :
  serve (import_transactions Examples.is_uuid Examples.sch
           {| req_user := "caro"; req_dry_run := None;
              req_file := Some (CsvRows Examples.good_batch) |})
        Examples.d0_bare 7
  = (Return {| imp_status := 200; imp_body := Inserted 2 |},
     ledger_append Examples.d0_bare
       [ {| bt_id := "tx-7"; bt_account_id := Examples.acc1; bt_tx_date := "2024-03-01";
            bt_description := Some "alquiler"; bt_amount := 40000%float;
            bt_type := credit; bt_category_id := None |};
         {| bt_id := "tx-8"; bt_account_id := Examples.acc1; bt_tx_date := "2024-03-01";
            bt_description := Some "alquiler"; bt_amount := 120%float;
            bt_type := debit; bt_category_id := None |} ]
       [ {| ta_transaction_id := "tx-7"; ta_fund_id := Examples.fund1; ta_ratio := 1%float |};
         {| ta_transaction_id := "tx-8"; ta_fund_id := Examples.fund2; ta_ratio := 1%float |} ],
     [ Begin; SetCurrentUser "caro"; Begin;
       InsertTransaction
         {| bt_id := "tx-7"; bt_account_id := Examples.acc1; bt_tx_date := "2024-03-01";
            bt_description := Some "alquiler"; bt_amount := 40000%float;
            bt_type := credit; bt_category_id := None |};
       InsertAllocation
         {| ta_transaction_id := "tx-7"; ta_fund_id := Examples.fund1; ta_ratio := 1%float |};
       InsertTransaction
         {| bt_id := "tx-8"; bt_account_id := Examples.acc1; bt_tx_date := "2024-03-01";
            bt_description := Some "alquiler"; bt_amount := 120%float;
            bt_type := debit; bt_category_id := None |};
       InsertAllocation
         {| ta_transaction_id := "tx-8"; ta_fund_id := Examples.fund2; ta_ratio := 1%float |};
       Commit; Commit ]).
Proof. vm_compute. reflexivity. Qed.

Lemma fund_scope_gate_fails_closed_witness :
  fst (assertWriteForFunds "beto" ["f1"; "f2"] (connect Examples.d0 7)) = Throw forbidden
  /\ fst (assertWriteForFunds "beto" ["f1"; "f-closed"] (connect Examples.d0 7)) = Return tt
  /\ serve (post_transaction Examples.sch "beto"
              (ParseSuccess (Examples.post_input None (Some Examples.halves))))
           Examples.d0 7
     = (Throw forbidden, Examples.d0,
        [Begin; SetCurrentUser "beto"; SelectWriteScopeCount "beto" ["f1"; "f2"]; Rollback]).
Proof.
  assert (Hnd : forall a b : string, a <> b -> NoDup [a; b]).
  { intros a b Hab. constructor; [|constructor; [|constructor]]; simpl; intuition. }
  assert (H12 : NoDup ["f1"; "f2"]) by (apply Hnd; discriminate).
  assert (H1c : NoDup ["f1"; "f-closed"]) by (apply Hnd; discriminate).
  pose proof (fund_scope_gate_fails_closed "beto" ["f1"; "f2"] (connect Examples.d0 7)
                ltac:(discriminate) H12) as [Ha [_ [_ [Hpost _]]]].
  pose proof (fund_scope_gate_fails_closed "beto" ["f1"; "f-closed"] (connect Examples.d0 7)
                ltac:(discriminate) H1c) as [_ [Hb _]].
  split; [|split].
  - apply Ha. vm_compute. discriminate.
  - apply Hb. vm_compute. reflexivity.
  - apply Hpost.
    + reflexivity.
    + vm_compute. reflexivity.
    + reflexivity.
    + vm_compute. discriminate.
Defined.

(** ** Pages of ordered, filtered rows *)

Import Listing.

Section QueryFacts.

Context {row : Type}.
Variable order : row -> row -> bool.

Lemma insert_by_In : forall (x y : row) (l : list row),
  In y (insert_by order x l) <-> y = x \/ In y l.
Proof.
  intros x y l. induction l as [|a l IH]; simpl.
  - split; intros [H|H]; auto.
  - destruct (order x a); simpl.
    + split; intros [H|H]; auto.
    + rewrite IH. split; intros [H|[H|H]]; auto.
Qed.

Lemma order_by_In : forall (y : row) (l : list row),
  In y (order_by order l) <-> In y l.
Proof.
  intros y l. induction l as [|a l IH]; simpl; [tauto|].
  rewrite insert_by_In, IH. split; intros [H|H]; auto.
Qed.

Lemma page_In : forall (limit offset : nat) (y : row) (l : list row),
  In y (page limit offset l) -> In y l.
Proof.
  intros limit offset y l H. unfold page in H.
  assert (Hf : forall n (m : list row), In y (firstn n m) -> In y m).
  { induction n as [|n IH]; intros [|a m] Hin; simpl in *; try contradiction.
    destruct Hin as [Hin|Hin]; auto. }
  assert (Hs : forall n (m : list row), In y (skipn n m) -> In y m).
  { induction n as [|n IH]; intros [|a m] Hin; simpl in *; auto. }
  eauto.
Qed.

End QueryFacts.

(** ** Settlement totals *)

Import Liquidaciones.







(** ** The fund gate of the list queries *)

Lemma is_admin_iff : forall d u, is_admin d u = true <-> holds_admin_role d u.
Proof.
  intros d u. unfold is_admin, holds_admin_role. rewrite existsb_exists. split.
  - intros [ur [Hur H]]. apply andb_true_iff in H. destruct H as [Eu H].
    apply existsb_exists in H. destruct H as [r [Hr H]].
    apply andb_true_iff in H. destruct H as [Er Hn].
    apply String.eqb_eq in Eu, Er. apply orb_true_iff in Hn.
    rewrite !String.eqb_eq in Hn. exists ur, r. auto.
  - intros [ur [r [Hur [Hr [Eu [Er Hn]]]]]]. exists ur. split; auto.
    apply andb_true_iff. split; [now apply String.eqb_eq|].
    apply existsb_exists. exists r. split; auto.
    apply andb_true_iff. split; [now apply String.eqb_eq|].
    apply orb_true_iff. now rewrite !String.eqb_eq.
Qed.

Lemma allowed_funds_In : forall d u f, In f (allowed_funds d u) <-> granted d u f.
Proof.
  intros d u f. unfold allowed_funds, granted. rewrite dedup_In, in_flat_map. split.
  - intros [ur [Hur H]]. apply filter_In in Hur. destruct Hur as [Hur Eu].
    apply String.eqb_eq in Eu. apply in_map_iff in H. destruct H as [g [Hf Hg]].
    apply filter_In in Hg. destruct Hg as [Hg E]. apply andb_true_iff in E.
    destruct E as [Er _]. apply String.eqb_eq in Er. exists ur, g. auto.
  - intros [ur [g [Hur [Hg [Eu [Er Ef]]]]]]. exists ur. split.
    + apply filter_In. split; auto. now apply String.eqb_eq.
    + apply in_map_iff. exists g. split; auto. apply filter_In. split; auto.
      apply andb_true_iff. split; [now apply String.eqb_eq|]. now destruct (rfa_scope g).
Qed.

Lemma sql_in_true : forall x l,
  sql_in x l = true <-> exists f, x = Some f /\ In f l.
Proof.
  intros [v|] l; simpl.
  - rewrite existsb_exists. split.
    + intros [f [Hf E]]. apply String.eqb_eq in E. subst. eauto.
    + intros [f [E Hf]]. inversion E. subst. exists f. split; auto.
      apply String.eqb_refl.
  - split; [discriminate|]. intros [f [E _]]. discriminate.
Qed.

Lemma view_granted : forall d efa,
  In efa (v_effective_fund_access d) -> granted d (efa_user_id efa) (efa_fund_id efa).
Proof.
  intros d efa H. apply view_In in H. destruct H as [[g [Hg [Hu Hf]]] _].
  apply user_grants_In in Hg. destruct Hg as [ur [a [Hur [Ha [Er Eg]]]]].
  subst g. simpl in *. exists ur, a. auto.
Qed.

Lemma filter_at_most_one : forall A (p : A -> bool) (a : A) (l : list A),
  NoDup l -> (forall x, p x = true -> x = a) -> length (filter p l) <= 1.
Proof.
  intros A p a l Hnd Hp. induction Hnd as [|x l Hx Hnd IH]; simpl; [lia|].
  destruct (p x) eqn:E; [|exact IH].
  assert (Hnil : filter p l = []).
  { destruct (filter p l) as [|y r] eqn:Ef; auto.
    assert (Hy : In y (filter p l)) by (rewrite Ef; now left).
    apply filter_In in Hy. destruct Hy as [Hy Hpy].
    apply Hp in E. apply Hp in Hpy. subst. contradiction. }
  rewrite Hnil. simpl. lia.
Qed.

Lemma filter_map_comm : forall A B (f : A -> B) (p : B -> bool) (l : list A),
  filter p (map f l) = map f (filter (fun x => p (f x)) l).
Proof.
  intros A B f p l. induction l as [|a l IH]; simpl; auto.
  destruct (p (f a)); simpl; now rewrite IH.
Qed.

Section GateFacts.

Context {row : Type}.
Variable fund_of : row -> option FundId.
Variable filters : row -> bool.
Variable order : row -> row -> bool.

(** The view holds at most one row for a user and a fund. *)
Lemma view_matches_at_most_one : forall d u (v : row),
  length (filter (fun efa => sql_eq (fund_of v) (efa_fund_id efa)
                             && String.eqb (efa_user_id efa) u)
                 (v_effective_fund_access d)) <= 1.
Proof.
  intros d u v. unfold v_effective_fund_access. rewrite filter_map_comm, length_map.
  cbn [efa_fund_id efa_user_id].
  destruct (fund_of v) as [f|] eqn:Ef; simpl.
  - apply filter_at_most_one with (a := (u, f)).
    + apply dedup_by_NoDup. apply pair_eqb_eq.
    + intros [ku kf] H. apply andb_true_iff in H. simpl in H.
      destruct H as [H1 H2]. apply String.eqb_eq in H1, H2. now subst.
  - induction (dedup_by _ _) as [|k l IH]; simpl; lia.
Qed.

Lemma left_join_access_rows : forall d u (table : list row),
  map fst (left_join_access fund_of d u table) = table.
Proof.
  intros d u table. unfold left_join_access.
  induction table as [|v table IH]; [reflexivity|].
  cbn [flat_map]. rewrite map_app, IH.
  pose proof (view_matches_at_most_one d u v) as H.
  destruct (filter _ (v_effective_fund_access d)) as [|m [|m' ms]]; simpl in *;
    try reflexivity; lia.
Qed.

Lemma left_join_access_In : forall d u (table : list row) v efa,
  In (v, Some efa) (left_join_access fund_of d u table) ->
  exists f, fund_of v = Some f /\ granted d u f.
Proof.
  intros d u table v efa H. unfold left_join_access in H. apply in_flat_map in H.
  destruct H as [v' [_ H]].
  destruct (filter _ (v_effective_fund_access d)) as [|m ms] eqn:Ef.
  - destruct H as [H|[]]. discriminate.
  - rewrite <- Ef in H. apply in_map_iff in H. destruct H as [e [He Hin]].
    inversion He. subst v' e. apply filter_In in Hin. destruct Hin as [Hin Hc].
    apply andb_true_iff in Hc. destruct Hc as [Hf Hu]. apply String.eqb_eq in Hu.
    destruct (fund_of v) as [f|]; [|discriminate]. simpl in Hf.
    apply String.eqb_eq in Hf. exists f. split; auto.
    subst. now apply view_granted.
Qed.

(** C3: in every list query, a user holding a role named admin or owner
    (in any letter case) gets exactly the page the query would return
    with no fund gate, whatever the grants; a user holding no such role
    gets only rows whose fund is granted to the user through some role,
    so never a row of an ungranted fund (nor one without a fund). This
    holds for the gate written with the CTE [allowed_funds] (facturas,
    payments, liquidaciones) and for the one joining the view
    [v_effective_fund_access] (transactions), the view being modelled from
    the spec. *)
Theorem list_queries_fund_gate :
  forall (d : db) (u : UserId) (limit offset : nat) (table : list row),
    (holds_admin_role d u ->
       list_by_allowed_funds fund_of filters order d u limit offset table
       = ungated_list filters order limit offset table
       /\ list_by_effective_access fund_of filters order d u limit offset table
          = ungated_list filters order limit offset table)
    /\ (~ holds_admin_role d u ->
        (forall r, In r (list_by_allowed_funds fund_of filters order d u limit offset table) ->
           exists f, fund_of r = Some f /\ granted d u f)
        /\ (forall r, In r (list_by_effective_access fund_of filters order d u limit offset table) ->
              exists f, fund_of r = Some f /\ granted d u f)).
Proof.
  intros d u limit offset table. split.
  - intros Hadm. apply is_admin_iff in Hadm.
    unfold list_by_allowed_funds, list_by_effective_access, ungated_list.
    rewrite Hadm. cbn [orb]. split; [reflexivity|].
    do 2 f_equal.
    rewrite <- (left_join_access_rows d u table) at 2.
    rewrite filter_map_comm. reflexivity.
  - intros Hadm.
    assert (Ha : is_admin d u = false).
    { destruct (is_admin d u) eqn:E; auto. apply is_admin_iff in E. contradiction. }
    split; intros r Hr.
    + unfold list_by_allowed_funds in Hr. apply page_In, order_by_In, filter_In in Hr.
      destruct Hr as [_ Hr]. rewrite Ha in Hr. apply andb_true_iff in Hr.
      destruct Hr as [Hr _]. simpl in Hr. apply sql_in_true in Hr.
      destruct Hr as [f [Hf Hin]]. exists f. split; auto. now apply allowed_funds_In.
    + unfold list_by_effective_access in Hr. apply page_In, order_by_In, in_map_iff in Hr.
      destruct Hr as [[v o] [Hv Hr]]. simpl in Hv. subst v.
      apply filter_In in Hr. destruct Hr as [Hr Hc]. rewrite Ha in Hc.
      apply andb_true_iff in Hc. destruct Hc as [Hc _]. simpl in Hc.
      destruct o as [efa|]; [|discriminate].
      now apply left_join_access_In in Hr.
Qed.

End GateFacts.

(** ** The loose amount parser *)

Lemma space_not_amount_char : forall c, is_space c = true -> amount_char c = false.
Proof. intros [[] [] [] [] [] [] [] []]; vm_compute; congruence. Qed.

Lemma strip_trim_start : forall s, strip (trim_start s) = strip s.
Proof.
  induction s as [|c s IH]; simpl; auto.
  destruct (is_space c) eqn:E; auto.
  unfold strip in *. simpl. now rewrite (space_not_amount_char c E).
Qed.

Lemma strip_trim_end : forall s, strip (trim_end s) = strip s.
Proof.
  unfold strip. induction s as [|c s IH]; simpl; auto.
  destruct (trim_end s) as [|c' s'] eqn:Et.
  - simpl in IH. destruct (is_space c) eqn:E.
    + simpl. now rewrite (space_not_amount_char c E).
    + simpl. now rewrite <- IH.
  - simpl. simpl in IH. now rewrite IH.
Qed.

Lemma strip_trim : forall s, strip (trim s) = strip s.
Proof. intros s. unfold trim. now rewrite strip_trim_end, strip_trim_start. Qed.

Lemma replace_all_same : forall c s, replace_all c c s = s.
Proof.
  intros c s. induction s as [|x s IH]; simpl; auto. rewrite IH.
  unfold ascii_eqb. destruct (Ascii.eqb x c) eqn:E; auto.
  apply Ascii.eqb_eq in E. now subst.
Qed.


Lemma remove_all_absent : forall c s, includes c s = false -> remove_all c s = s.
Proof.
  intros c s. unfold remove_all. induction s as [|x s IH]; simpl; auto.
  destruct (ascii_eqb x c); simpl; [discriminate|]. intros H. now rewrite IH.
Qed.

Lemma remove_all_count : forall c s, count_char c (remove_all c s) = 0.
Proof.
  intros c s. unfold remove_all. induction s as [|x s IH]; simpl; auto.
  destruct (ascii_eqb x c) eqn:E; simpl; auto. now rewrite E.
Qed.

Lemma replace_first_all : forall c d s,
  count_char c s <= 1 -> replace_first c d s = replace_all c d s.
Proof.
  intros c d s. induction s as [|x s IH]; simpl; auto.
  destruct (ascii_eqb x c) eqn:E; simpl; intros H.
  - f_equal. assert (H0 : count_char c s = 0) by lia.
    clear - H0. induction s as [|y s IH]; simpl in *; auto.
    destruct (ascii_eqb y c); simpl in *; [discriminate|]. now rewrite <- IH.
  - now rewrite IH.
Qed.

Lemma replace_first_count : forall c d s,
  ascii_eqb d c = false -> 2 <= count_char c s ->
  1 <= count_char c (replace_first c d s).
Proof.
  intros c d s Hd. induction s as [|x s IH]; simpl; [lia|].
  destruct (ascii_eqb x c) eqn:E; simpl; intros H.
  - rewrite Hd. simpl. lia.
  - rewrite E. simpl. apply IH. lia.
Qed.

Lemma replace_all_count : forall c d s,
  ascii_eqb c d = false ->
  count_char d (replace_all c d s) = count_char c s + count_char d s.
Proof.
  intros c d s Hcd. induction s as [|x s IH]; simpl; auto.
  destruct (ascii_eqb x c) eqn:E; simpl.
  - unfold ascii_eqb in *. rewrite Ascii.eqb_refl.
    apply Ascii.eqb_eq in E. subst x. rewrite Hcd. simpl. lia.
  - destruct (ascii_eqb x d); simpl; lia.
Qed.

Lemma span_digits_count : forall c s acc len m k rest,
  is_digit c = false ->
  span_digits s acc len = (m, k, rest) ->
  count_char c s = count_char c rest.
Proof.
  intros c s. induction s as [|x s IH]; intros acc len m k rest Hc H; simpl in H.
  - inversion H. reflexivity.
  - destruct (is_digit x) eqn:Ex.
    + simpl. apply IH in H; auto. rewrite <- H.
      destruct (ascii_eqb x c) eqn:E; auto.
      apply Ascii.eqb_eq in E. subst. congruence.
    + inversion H. reflexivity.
Qed.

(** A decimal literal holds no comma and at most one dot. *)
Lemma parse_decimal_counts : forall s r,
  parse_decimal s = Some r ->
  count_char "," s = 0 /\ count_char "." s <= 1.
Proof.
  intros s r H. unfold parse_decimal in H.
  assert (Hbody : exists neg body,
            (let '(neg, body) :=
               match s with
               | String "-" r => (true, r)
               | String "+" r => (false, r)
               | _ => (false, s)
               end in (neg, body)) = (neg, body)
            /\ count_char "," s = count_char "," body
            /\ count_char "." s = count_char "." body).
  { destruct s as [|x s']; [exists false, ""; auto|].
    destruct (Ascii.eqb x "-") eqn:E1.
    - apply Ascii.eqb_eq in E1. subst x. exists true, s'. auto.
    - destruct (Ascii.eqb x "+") eqn:E2.
      + apply Ascii.eqb_eq in E2. subst x. exists false, s'. auto.
      + exists false, (String x s'). split; auto.
        destruct x as [[] [] [] [] [] [] [] []]; try discriminate; reflexivity. }
  destruct Hbody as [neg [body [Hb [Hc Hd]]]].
  destruct (match s with
            | String "-" r => (true, r)
            | String "+" r => (false, r)
            | _ => (false, s)
            end) as [neg' body'].
  inversion Hb. subst neg' body'. rewrite Hc, Hd. clear Hb Hc Hd.
  destruct (span_digits body 0 0) as [[ip ilen] rest] eqn:E1.
  rewrite (span_digits_count "," _ _ _ _ _ _ eq_refl E1).
  rewrite (span_digits_count "." _ _ _ _ _ _ eq_refl E1).
  destruct rest as [|x rest']; [simpl; auto|].
  destruct (Ascii.eqb x ".") eqn:Ex.
  - apply Ascii.eqb_eq in Ex. subst x.
    destruct (span_digits rest' ip ilen) as [[m len] rest''] eqn:E2.
    simpl. rewrite (span_digits_count "," _ _ _ _ _ _ eq_refl E2).
    rewrite (span_digits_count "." _ _ _ _ _ _ eq_refl E2).
    destruct rest''; [simpl; auto|discriminate].
  - destruct x as [[] [] [] [] [] [] [] []]; discriminate.
Qed.

Lemma Number_nan : forall s,
  1 <= count_char "," s \/ 2 <= count_char "." s -> Number s = PrimFloat.nan.
Proof.
  intros s H. unfold Number.
  destruct s as [|x s']; [simpl in H; lia|]. cbn [is_empty].
  destruct (parse_decimal (String x s')) as [[[neg m] k]|] eqn:E; auto.
  apply parse_decimal_counts in E. lia.
Qed.

(** Turning the first comma or every comma into a dot gives the same
    number, once the dots are gone. *)
Lemma Number_replace_first_all : forall u,
  count_char "." u = 0 ->
  Number (replace_first "," "." u) = Number (replace_all "," "." u).
Proof.
  intros u Hu. destruct (le_lt_dec (count_char "," u) 1) as [H|H].
  - now rewrite replace_first_all.
  - rewrite !Number_nan; auto.
    + right. rewrite replace_all_count by reflexivity. lia.
    + left. apply replace_first_count; [reflexivity|lia].
Qed.

(** What reaches [Number] holds only digits, dots, commas and minus
    signs. *)
Lemma normalize_separators_alphabet : forall s,
  filter_str amount_char (normalize_separators (strip s))
  = normalize_separators (strip s).
Proof.
  assert (Hf : forall p s, filter_str p (filter_str p s) = filter_str p s).
  { intros p s. induction s as [|c s IH]; simpl; auto.
    destruct (p c) eqn:E; simpl; rewrite ?E, IH; reflexivity. }
  assert (Hr : forall c t, filter_str amount_char t = t ->
                 filter_str amount_char (remove_all c t) = remove_all c t).
  { intros c t. unfold remove_all. induction t as [|x t IH]; simpl; auto.
    destruct (amount_char x) eqn:Ex; intros H.
    - inversion H as [H']. rewrite H'.
      destruct (negb (ascii_eqb x c)); simpl; rewrite ?Ex, ?IH; auto.
    - exfalso. assert (Hl : String.length (filter_str amount_char t) <= String.length t).
      { clear. induction t as [|y t IH]; simpl; auto.
        destruct (amount_char y); simpl; lia. }
      rewrite H in Hl. simpl in Hl. lia. }
  assert (Hp : forall t, filter_str amount_char t = t ->
                 filter_str amount_char (replace_first "," "." t) = replace_first "," "." t).
  { induction t as [|x t IH]; simpl; auto.
    destruct (amount_char x) eqn:Ex; intros H.
    - inversion H as [H']. rewrite H'.
      destruct (ascii_eqb x ","); simpl; rewrite ?Ex, ?H', ?IH; auto.
    - exfalso. assert (Hl : String.length (filter_str amount_char t) <= String.length t).
      { clear. induction t as [|y t IH]; simpl; auto.
        destruct (amount_char y); simpl; lia. }
      rewrite H in Hl. simpl in Hl. lia. }
  intros s. unfold normalize_separators, strip.
  destruct (includes "." _ && includes "," _).
  - destruct (_ >? _)%Z; auto.
  - destruct (includes "," _); auto.
Qed.

Lemma Number_separators : forall t,
  Number (normalize_separators t) = Number (read_separators t).
Proof.
  intros t. unfold normalize_separators, read_separators, decimal_separator.
  destruct (includes "." t) eqn:Ed, (includes "," t) eqn:Ec; cbn [andb].
  - destruct (lastIndexOf "," t >? lastIndexOf "." t)%Z.
    + apply Number_replace_first_all. apply remove_all_count.
    + cbn. now rewrite replace_all_same.
  - cbn. now rewrite replace_all_same.
  - apply Number_replace_first_all. apply remove_all_count.
  - now rewrite remove_all_absent.
Qed.

(** C7: for every amount string the loose parser returns what the
    described reading returns: characters other than digits, dot, comma
    and minus are stripped; with both a dot and a comma, the one whose
    last occurrence is further right is the decimal separator and the
    other is removed; a comma alone is the decimal separator; a dot alone
    is the decimal separator; the result is the number read, if finite
    (nothing for a blank string). "40.000,00" and "40,000.00" give 40000
    and "120" gives 120. *)
Theorem parseAmountLoose_reads_separators :
  (forall s : string, parseAmountLoose (VString s) = parse_amount_as_described s)
  /\ parseAmountLoose (VString "40.000,00") = Some 40000%float
  /\ parseAmountLoose (VString "40,000.00") = Some 40000%float
  /\ parseAmountLoose (VString "120") = Some 120%float.
Proof.
  split; [|repeat split; vm_compute; reflexivity].
  intros s. unfold parseAmountLoose, parse_amount_as_described. cbn [String_of].
  destruct (is_empty (trim s)); auto.
  now rewrite strip_trim, Number_separators.
Qed.

Lemma list_queries_fund_gate_witness :
  list_by_allowed_funds snd Examples.all_rows Examples.by_number
    Examples.d0 "ana" 10 0 Examples.invoices
  = Examples.invoices
  /\ list_by_effective_access snd Examples.all_rows Examples.by_number
       Examples.d0 "ana" 10 0 Examples.invoices
     = Examples.invoices
  /\ (forall r,
        In r (list_by_allowed_funds snd Examples.all_rows Examples.by_number
                Examples.d0 "caro" 10 0 Examples.invoices) ->
        exists f, snd r = Some f /\ granted Examples.d0 "caro" f)
  /\ (forall r,
        In r (list_by_effective_access snd Examples.all_rows Examples.by_number
                Examples.d0 "caro" 10 0 Examples.invoices) ->
        exists f, snd r = Some f /\ granted Examples.d0 "caro" f).
Proof.
  assert (Hana : holds_admin_role Examples.d0 "ana").
  { exists {| ur_user_id := "ana"; ur_role_id := "r-admin" |},
           {| role_id := "r-admin"; role_name := "Admin" |}.
    simpl. repeat split; auto. }
  assert (Hcaro : ~ holds_admin_role Examples.d0 "caro").
  { intros H. apply is_admin_iff in H. vm_compute in H. discriminate. }
  destruct (list_queries_fund_gate snd Examples.all_rows Examples.by_number
              Examples.d0 "ana" 10 0 Examples.invoices) as [Hadm _].
  destruct (list_queries_fund_gate snd Examples.all_rows Examples.by_number
              Examples.d0 "caro" 10 0 Examples.invoices) as [_ Hnot].
  destruct (Hadm Hana) as [H1 H2]. destruct (Hnot Hcaro) as [H3 H4].
  split; [|split; [|split]].
  - rewrite H1. vm_compute. reflexivity.
  - rewrite H2. vm_compute. reflexivity.
  - exact H3.
  - exact H4.
Defined.

(** What the two users of the sample data see of the invoices. *)
Lemma list_example :
  list_by_allowed_funds snd Examples.all_rows Examples.by_number
    Examples.d0 "caro" 10 0 Examples.invoices
  = [ ("A-1", Some "f1") ]
  /\ list_by_effective_access snd Examples.all_rows Examples.by_number
       Examples.d0 "beto" 10 0 Examples.invoices
     = [ ("A-1", Some "f1"); ("A-2", Some "f2") ].
Proof. split; vm_compute; reflexivity. Qed.

(** A request that passes every check: the transaction and its
    allocation are stored and committed together. *)
Lemma post_example :
  serve (post_transaction Examples.sch "beto"
           (ParseSuccess (Examples.post_input (Some "f1") None)))
        Examples.d0 7
  = (Return {| res_status := 201; res_body := CreatedId "tx-7" |},
     ledger_append Examples.d0
       [ {| bt_id := "tx-7"; bt_account_id := "acc"; bt_tx_date := "2024-02-01";
            bt_description := None; bt_amount := 250%float; bt_type := debit;
            bt_category_id := None |} ]
       [ {| ta_transaction_id := "tx-7"; ta_fund_id := "f1"; ta_ratio := 1%float |} ],
     [ Begin; SetCurrentUser "beto"; SelectWriteScopeCount "beto" ["f1"];
       InsertTransaction
         {| bt_id := "tx-7"; bt_account_id := "acc"; bt_tx_date := "2024-02-01";
            bt_description := None; bt_amount := 250%float; bt_type := debit;
            bt_category_id := None |};
       InsertAllocation
         {| ta_transaction_id := "tx-7"; ta_fund_id := "f1"; ta_ratio := 1%float |};
       Commit ]).
Proof. vm_compute. reflexivity. Qed.

(* ================================================================== *)
(** * Further properties of the routes                                 *)
(* ================================================================== *)

(** ** POST and PATCH of transactions *)

Lemma insert_allocations_working : forall sch txId l c c',
  for_each l (fun a => insert_allocation sch txId (fund_id a) (ratio a)) c
  = (Return tt, c') ->
  working c' = ledger_append (working c) [] (map (allocation_row txId) l).
Proof.
  intros sch txId l. induction l as [|a l IH]; intros c c' H; simpl in H.
  - inversion H. subst. simpl. now rewrite ledger_append_nil.
  - unfold bind in H. unfold insert_allocation in H. rewrite mutate_run in H.
    destruct (allocation_ok sch (working c) _); [|discriminate].
    apply IH in H. cbn [working] in H. rewrite H.
    unfold ledger_append, with_transaction_allocations. simpl.
    rewrite <- !app_assoc. reflexivity.
Qed.

(** X1: POST /transactions stores all or nothing. Whenever it throws
    (bad body, no fund, ratio sum, gate, a refused insert) the database
    is what it was; when it answers, the status is 201, the id is the one
    the store gave the new row, and the database is the old one plus that
    one transaction row and one allocation row per allocation of the
    effective set, in order. *)
Theorem post_transaction_all_or_nothing :
  forall (sch : schema) (u : UserId) (parsed : safe_parse TxInput) (d : db) (seq : nat),
    match serve (post_transaction sch u parsed) d seq with
    | (Throw e, d', _) => d' = d
    | (Return r, d', _) =>
        exists input,
          parsed = ParseSuccess input
          /\ r = {| res_status := 201; res_body := CreatedId (new_uuid sch seq) |}
          /\ d' = ledger_append d
                    [ {| bt_id := new_uuid sch seq;
                         bt_account_id := in_account_id input;
                         bt_tx_date := in_tx_date input;
                         bt_description := in_description input;
                         bt_amount := in_amount input;
                         bt_type := in_type input;
                         bt_category_id := in_category_id input |} ]
                    (map (allocation_row (new_uuid sch seq)) (build_allocations input))
    end.
Proof.
  intros sch u [input|m] d seq; [|reflexivity].
  unfold post_transaction.
  destruct (length (build_allocations input) =? 0) eqn:Hlen; [reflexivity|].
  destruct (ratio_sum_off (build_allocations input)) eqn:Hsum; [reflexivity|].
  rewrite serve_then_ret.
  set (fundIds := dedup (map fund_id (build_allocations input))).
  assert (Hf : fundIds <> []).
  { unfold fundIds. destruct (build_allocations input); [discriminate|].
    simpl. discriminate. }
  pose proof (post_session_obeys sch u input fundIds (build_allocations input)) as Hob.
  destruct (withUser_fresh _ _ _ u _ d seq Hob) as [l [_ [_ H]]].
  match type of H with
  | match fst (?fn ?c0) with _ => _ end =>
      destruct (fn c0) as [[x|e] c'] eqn:Efn; cbn [fst snd] in H
  end.
  - rewrite H. cbn [committed]. exists input. split; [reflexivity|].
    unfold bind at 1 in Efn. rewrite assertWriteForFunds_run in Efn by assumption.
    destruct (write_scope_count u fundIds _ =? _); [|discriminate].
    unfold bind at 1 in Efn. unfold insert_transaction in Efn.
    unfold bind at 1 in Efn. unfold next_uuid at 1 in Efn.
    unfold bind at 1 in Efn. rewrite mutate_run in Efn. cbn [working sent opened] in Efn.
    destruct (transaction_ok sch d _); [|discriminate].
    unfold ret at 1 in Efn. cbn [uuid_seq sent opened] in Efn.
    unfold bind at 1 in Efn.
    match type of Efn with
    | context [for_each ?l ?b ?c] => destruct (for_each l b c) as [[[]|e] c1] eqn:Eall
    end; [|discriminate].
    apply insert_allocations_working in Eall. cbn [working] in Eall.
    unfold ret in Efn. inversion Efn. subst x c'. split; [reflexivity|].
    rewrite Eall. unfold ledger_append, with_bank_transactions. simpl.
    rewrite app_nil_r. reflexivity.
  - destruct H as [_ H]. rewrite H. reflexivity.
Qed.





(** ** The fund-scope gate on any list *)

Lemma existsb_dedup : forall (p : string -> bool) (l : list string),
  existsb p (dedup l) = existsb p l.
Proof.
  intros p l. apply eq_iff_eq_true. rewrite !existsb_exists. split.
  - intros [x [Hx Hp]]. exists x. split; auto. now apply dedup_In.
  - intros [x [Hx Hp]]. exists x. split; auto. now apply dedup_In.
Qed.

Lemma write_scope_count_dedup : forall d u fundIds,
  write_scope_count u fundIds d = sufficient_count d u (dedup fundIds).
Proof.
  intros d u fundIds.
  rewrite <- (write_scope_count_sufficient d u (dedup fundIds)) by apply dedup_NoDup.
  unfold write_scope_count. do 3 f_equal. apply filter_ext. intros r.
  now rewrite existsb_dedup.
Qed.

Lemma dedup_length : forall l, length (dedup l) <= length l.
Proof.
  intros l. apply NoDup_incl_length; [apply dedup_NoDup|].
  intros x. apply dedup_In.
Qed.

Lemma dedup_length_NoDup : forall l, length (dedup l) = length l -> NoDup l.
Proof.
  intros l H. apply (@NoDup_incl_NoDup _ (dedup l) l).
  - apply dedup_NoDup.
  - lia.
  - intros x. apply dedup_In.
Qed.

Lemma filter_length_all : forall A (p : A -> bool) (l : list A),
  length (filter p l) = length l -> forall x, In x l -> p x = true.
Proof.
  intros A p l. induction l as [|a l IH]; simpl; [tauto|].
  pose proof (filter_length_le p l) as Hle.
  destruct (p a) eqn:E; simpl; intros H x [Hx|Hx]; subst; auto; try lia.
Qed.

(** X3: for any list of fund ids, repeated ids or not, the gate passes
    exactly when the list has no repeated id and the user has write or
    admin scope, through some role, on every fund of it: its count of
    distinct funds can never reach the length of a list with a repetition,
    which is why the routes hand it a set. In every other case it throws
    the 403 error. It never changes the database, and the names of the
    user's roles (admin and owner included) play no part in it. *)
Theorem assertWriteForFunds_passes_iff :
  forall (u : UserId) (fundIds : list FundId) (c : conn),
    (fst (assertWriteForFunds u fundIds c) = Return tt
     <-> NoDup fundIds
         /\ forall f, In f fundIds -> has_write_or_admin (working c) u f = true)
    /\ (fst (assertWriteForFunds u fundIds c) = Return tt
        \/ fst (assertWriteForFunds u fundIds c) = Throw forbidden)
    /\ working (snd (assertWriteForFunds u fundIds c)) = working c
    /\ committed (snd (assertWriteForFunds u fundIds c)) = committed c.
Proof.
  intros u fundIds c. destruct fundIds as [|f0 r0] eqn:El.
  - cbn. repeat split; auto; try constructor.
  - rewrite <- El. assert (Hne : fundIds <> []) by (rewrite El; discriminate).
    clear El. rewrite (assertWriteForFunds_run u fundIds c Hne). cbn [fst snd].
    rewrite write_scope_count_dedup. unfold sufficient_count.
    pose proof (filter_length_le (has_write_or_admin (working c) u) (dedup fundIds)) as H1.
    pose proof (dedup_length fundIds) as H2.
    unfold FundId in *.
    split; [|split; [|split; reflexivity]].
    + destruct (_ =? _) eqn:E.
      * apply Nat.eqb_eq in E. split; auto. intros _.
        assert (Hnd : NoDup fundIds) by (apply dedup_length_NoDup; lia).
        split; auto. rewrite (dedup_id _ Hnd) in E.
        now apply filter_length_all.
      * apply Nat.eqb_neq in E. split; [discriminate|]. intros [Hnd Hall].
        exfalso. apply E. rewrite (dedup_id _ Hnd).
        rewrite forallb_filter_id; auto. now apply forallb_forall.
    + destruct (_ =? _); auto.
Qed.

(** ** The funds a user sees *)

Import Listing RoleGate.

Lemma view_row_granted : forall d u f,
  (exists efa, In efa (v_effective_fund_access d)
               /\ efa_user_id efa = u /\ efa_fund_id efa = f)
  <-> granted d u f.
Proof.
  intros d u f. split.
  - intros [efa [Hin [Hu Hf]]]. subst. now apply view_granted.
  - intros [ur [g [Hur [Hg [Eu [Er Ef]]]]]].
    exists {| efa_user_id := u; efa_fund_id := f;
              efa_scope := highest_scope u f (user_grants d) |}.
    simpl. split; auto. apply view_In. simpl. split; auto.
    exists {| efa_user_id := ur_user_id ur; efa_fund_id := rfa_fund_id g;
              efa_scope := rfa_scope g |}.
    simpl. repeat split; auto. apply user_grants_In. exists ur, g. auto.
Qed.

(** X4: [getVisibleFundIds] returns, without repetition, exactly the funds
    granted to the user through some role, which are the funds of the CTE
    [allowed_funds] of the list queries; it reads only, and a role named
    admin or owner adds nothing to its answer. *)
Theorem getVisibleFundIds_granted :
  forall (u : UserId) (c : conn),
    exists l : list FundId,
      getVisibleFundIds u c = (Return l, c)
      /\ NoDup l
      /\ (forall f, In f l <-> granted (working c) u f)
      /\ (forall f, In f l <-> In f (allowed_funds (working c) u))
      /\ length l = length (allowed_funds (working c) u).
Proof.
  intros u c. eexists. split; [reflexivity|].
  assert (Hin : forall f,
             In f (dedup (map efa_fund_id
                            (filter (fun r => String.eqb (efa_user_id r) u)
                                    (v_effective_fund_access (working c)))))
             <-> granted (working c) u f).
  { intros f. rewrite dedup_In, in_map_iff, <- view_row_granted. split.
    - intros [r [Hf Hr]]. apply filter_In in Hr. destruct Hr as [Hr Eu].
      apply String.eqb_eq in Eu. exists r. auto.
    - intros [r [Hr [Eu Hf]]]. exists r. split; auto. apply filter_In. split; auto.
      now apply String.eqb_eq. }
  split; [apply dedup_NoDup|]. split; [exact Hin|]. split.
  - intros f. now rewrite Hin, allowed_funds_In.
  - apply NoDup_same_length; try apply dedup_NoDup.
    intros f. now rewrite Hin, allowed_funds_In.
Qed.

(** ** The two shapes of the read gate *)

Section GateShapes.

Context {row : Type}.
Variable fund_of : row -> option FundId.
Variable filters : row -> bool.
Variable order : row -> row -> bool.

Lemma joined_iff_allowed : forall d u (v : row),
  match filter (fun efa => sql_eq (fund_of v) (efa_fund_id efa)
                           && String.eqb (efa_user_id efa) u)
               (v_effective_fund_access d) with
  | [] => sql_in (fund_of v) (allowed_funds d u) = false
  | _ => sql_in (fund_of v) (allowed_funds d u) = true
  end.
Proof.
  intros d u v.
  destruct (filter _ (v_effective_fund_access d)) as [|m ms] eqn:Ef.
  - destruct (sql_in (fund_of v) (allowed_funds d u)) eqn:E; auto.
    apply sql_in_true in E. destruct E as [f [Hf Hin]].
    apply allowed_funds_In, view_row_granted in Hin.
    destruct Hin as [efa [Hin [Hu Hff]]].
    assert (H : In efa (filter (fun efa => sql_eq (fund_of v) (efa_fund_id efa)
                                           && String.eqb (efa_user_id efa) u)
                               (v_effective_fund_access d))).
    { apply filter_In. split; auto. rewrite Hf. simpl.
      apply andb_true_iff. split; apply String.eqb_eq; auto. }
    rewrite Ef in H. destruct H.
  - assert (H : In m (filter (fun efa => sql_eq (fund_of v) (efa_fund_id efa)
                                         && String.eqb (efa_user_id efa) u)
                             (v_effective_fund_access d)))
      by (rewrite Ef; now left).
    apply filter_In in H. destruct H as [Hin Hc].
    apply andb_true_iff in Hc. destruct Hc as [Hf Hu]. apply String.eqb_eq in Hu.
    destruct (fund_of v) as [f|]; [|discriminate]. simpl in Hf.
    apply String.eqb_eq in Hf. apply sql_in_true. exists f. split; auto.
    apply allowed_funds_In. subst. now apply view_granted.
Qed.

Lemma joined_rows_gate : forall d u (table : list row),
  map fst
    (filter (fun j => (is_admin d u
                       || match snd j with Some _ => true | None => false end)
                      && filters (fst j))
            (left_join_access fund_of d u table))
  = filter (fun r => (is_admin d u || sql_in (fund_of r) (allowed_funds d u))
                     && filters r)
           table.
Proof.
  intros d u table. unfold left_join_access.
  induction table as [|v table IH]; [reflexivity|].
  cbn [flat_map]. rewrite filter_app, map_app, IH. cbn [filter].
  pose proof (view_matches_at_most_one fund_of d u v) as H1.
  pose proof (joined_iff_allowed d u v) as H2.
  destruct (filter _ (v_effective_fund_access d)) as [|m [|m' ms]];
    simpl in H1; try lia; rewrite H2; cbn;
    destruct (is_admin d u); destruct (filters v); reflexivity.
Qed.

(** X5: the gate of GET /transactions, written with a left join of the
    view [v_effective_fund_access], and the gate of the other list queries,
    written with the CTE [allowed_funds], return the same page for every
    user, database, filter, order, limit and offset; and that page is the
    page of the ungated query over the rows the user may see, so rows of
    other funds do not even shift the limit and the offset. *)
Theorem read_gates_agree :
  forall (d : db) (u : UserId) (limit offset : nat) (table : list row),
    list_by_effective_access fund_of filters order d u limit offset table
    = list_by_allowed_funds fund_of filters order d u limit offset table
    /\ list_by_allowed_funds fund_of filters order d u limit offset table
       = ungated_list filters order limit offset
           (filter (fun r => is_admin d u || sql_in (fund_of r) (allowed_funds d u)) table).
Proof.
  intros d u limit offset table.
  unfold list_by_effective_access, list_by_allowed_funds, ungated_list. split.
  - now rewrite joined_rows_gate.
  - do 2 f_equal. induction table as [|v table IH]; [reflexivity|].
    simpl. destruct (is_admin d u || sql_in (fund_of v) (allowed_funds d u)); simpl.
    + destruct (filters v); now rewrite IH.
    + exact IH.
Qed.

End GateShapes.

(** ** The role gate and DELETE /transactions/:id *)

Import TransactionsDelete.

Lemma role_rows_nonempty : forall d u roleName,
  (0 <? length (role_rows d u roleName)) = true <-> holds_role_named d u roleName.
Proof.
  intros d u roleName. unfold role_rows, holds_role_named.
  set (p := fun j : user_role * role =>
              String.eqb (ur_user_id (fst j)) u && String.eqb (role_name (snd j)) roleName).
  set (joined := flat_map _ (user_roles d)).
  assert (Hj : forall j, In j (filter p joined) <->
                         In (fst j) (user_roles d) /\ In (snd j) (roles d)
                         /\ ur_user_id (fst j) = u
                         /\ role_id (snd j) = ur_role_id (fst j)
                         /\ role_name (snd j) = roleName).
  { intros [ur r]. unfold joined, p. rewrite filter_In, in_flat_map. simpl.
    rewrite andb_true_iff, !String.eqb_eq. split.
    - intros [[ur' [Hur H]] [Eu En]]. apply in_map_iff in H.
      destruct H as [r' [E Hr]]. inversion E; subst ur' r'.
      apply filter_In in Hr. destruct Hr as [Hr Er]. apply String.eqb_eq in Er. auto.
    - intros [Hur [Hr [Eu [Er En]]]]. split; auto. exists ur. split; auto.
      apply in_map_iff. exists r. split; auto. apply filter_In. split; auto.
      now apply String.eqb_eq. }
  destruct (filter p joined) as [|j js] eqn:Ef; simpl.
  - split; [discriminate|]. intros [ur [r H]].
    destruct (proj2 (Hj (ur, r)) H).
  - split; auto. intros _. exists (fst j), (snd j). apply Hj. now left.
Qed.

Lemma requireRole_run : forall roleName u d seq,
  serve (requireRole roleName u) d seq
  = (Return (if 0 <? length (role_rows d u roleName) then Next
             else Respond 403 "forbidden (role required)"),
     d, [Begin; SetCurrentUser u; Commit]).
Proof.
  intros roleName u d seq. unfold serve, requireRole, try_catch.
  unfold bind at 1. rewrite withUser_unfold. unfold read. cbn [working opened].
  destruct (0 <? length (role_rows d u roleName)); reflexivity.
Qed.

(** X6: when the store answers its query, [requireRole(name)] lets the
    request through exactly when the user holds a role whose name is that
    very string, and answers 403 otherwise; in both cases the database is
    left as it was. The comparison is on the exact name, unlike the
    [is_admin] of the list queries, which lower-cases it: whoever passes
    [requireRole('admin')] is an admin for the reads, but a user can be an
    admin for the reads (role "Admin", or "owner") and be refused here. *)
Theorem requireRole_exact_name :
  forall (roleName : string) (u : UserId) (d : db) (seq : nat),
    (holds_role_named d u roleName ->
       fst (serve (requireRole roleName u) d seq) = (Return Next, d))
    /\ (~ holds_role_named d u roleName ->
          fst (serve (requireRole roleName u) d seq)
          = (Return (Respond 403 "forbidden (role required)"), d))
    /\ (fst (fst (serve (requireRole "admin" u) d seq)) = Return Next ->
          is_admin d u = true)
    /\ (exists d' u',
          is_admin d' u' = true
          /\ fst (fst (serve (requireRole "admin" u') d' seq))
             = Return (Respond 403 "forbidden (role required)")).
Proof.
  intros roleName u d seq. rewrite !requireRole_run. cbn [fst].
  split; [|split; [|split]].
  - intros H. apply role_rows_nonempty in H. now rewrite H.
  - intros H. destruct (0 <? _) eqn:E; auto.
    apply role_rows_nonempty in E. contradiction.
  - intros H. destruct (0 <? _) eqn:E; [|discriminate].
    apply role_rows_nonempty in E. apply is_admin_iff.
    destruct E as [ur [r [Hur [Hr [Eu [Er En]]]]]].
    exists ur, r. repeat split; auto. left. rewrite En. reflexivity.
  - exists Examples.d0, "ana". rewrite requireRole_run. split; reflexivity.
Qed.

Lemma requireRole_exact_name_witness :
  fst (serve (requireRole "editor" "beto") Examples.d0 7) = (Return Next, Examples.d0)
  /\ fst (serve (requireRole "admin" "ana") Examples.d0 7)
     = (Return (Respond 403 "forbidden (role required)"), Examples.d0).
Proof.
  split.
  - apply (proj1 (requireRole_exact_name "editor" "beto" Examples.d0 7)).
    exists {| ur_user_id := "beto"; ur_role_id := "r-editor" |},
           {| role_id := "r-editor"; role_name := "editor" |}.
    simpl. repeat split; auto.
  - apply (proj1 (proj2 (requireRole_exact_name "admin" "ana" Examples.d0 7))).
    intros H. apply role_rows_nonempty in H. vm_compute in H. discriminate.
Defined.




(** ** Amounts of the CSV import *)

Import TransactionsImport.




Section ImportAmounts.

Variable is_uuid : string -> bool.






End ImportAmounts.


(** ** Settlement lines: PUT /liquidaciones/:id/lines, then a read *)

Import LiquidacionesLines.









(** ** The detail of one row *)

Import Detail.

Section DetailFacts.

Context {row : Type}.
Variable id_of : row -> string.
Variable fund_of : row -> option FundId.

Lemma visible_iff : forall d u (r : row),
  is_admin d u || sql_in (fund_of r) (allowed_funds d u) = true
  <-> holds_admin_role d u \/ exists f, fund_of r = Some f /\ granted d u f.
Proof.
  intros d u r. rewrite orb_true_iff, is_admin_iff, sql_in_true. split.
  - intros [H|[f [Hf Hin]]]; auto. right. exists f. split; auto.
    now apply allowed_funds_In.
  - intros [H|[f [Hf Hg]]]; auto. right. exists f. split; auto.
    now apply allowed_funds_In.
Qed.

(** X11: GET /facturas/:id and GET /payments/:id. A row is answered only
    if it has the id asked for and the user is admin or owner, or is
    granted the row's fund; when some row of that id may be seen, one is
    answered; and when none may, the answer is the same 404, with the same
    message, as for an id no row has, so the answer does not tell a hidden
    row from a missing one. *)
Theorem detail_hides_existence :
  forall (error : string) (d : db) (u : UserId) (id : string) (table : list row),
    (forall r, get_one id_of fund_of error d u id table = Json r ->
       In r table /\ id_of r = id
       /\ (holds_admin_role d u \/ exists f, fund_of r = Some f /\ granted d u f))
    /\ ((exists r, In r table /\ id_of r = id
                   /\ (holds_admin_role d u \/ exists f, fund_of r = Some f /\ granted d u f)) ->
        exists r, get_one id_of fund_of error d u id table = Json r)
    /\ ((forall r, In r table -> id_of r = id ->
           ~ (holds_admin_role d u \/ exists f, fund_of r = Some f /\ granted d u f)) ->
        get_one id_of fund_of error d u id table = NotFound error
        /\ get_one id_of fund_of error d u id table
           = get_one id_of fund_of error d u id []).
Proof.
  intros error d u id table. unfold get_one, select_one.
  set (p := fun r : row => String.eqb (id_of r) id
                           && (is_admin d u || sql_in (fund_of r) (allowed_funds d u))).
  assert (Hp : forall r, In r (filter p table) <->
                 In r table /\ id_of r = id
                 /\ (holds_admin_role d u \/ exists f, fund_of r = Some f /\ granted d u f)).
  { intros r. unfold p. rewrite filter_In, andb_true_iff, String.eqb_eq, visible_iff.
    tauto. }
  split; [|split].
  - intros r H. destruct (filter p table) as [|r0 rest] eqn:Ef; simpl in H; [discriminate|].
    inversion H. subst r0. apply Hp. now left.
  - intros [r Hr]. apply Hp in Hr.
    destruct (filter p table) as [|r0 rest]; [destruct Hr|].
    simpl. eauto.
  - intros Hno. destruct (filter p table) as [|r0 rest] eqn:Ef; simpl; auto.
    exfalso. assert (H0 : In r0 (r0 :: rest)) by now left.
    apply Hp in H0. destruct H0 as [H1 [H2 H3]]. exact (Hno r0 H1 H2 H3).
Qed.

End DetailFacts.

Lemma detail_hides_existence_witness :
  get_one fst snd "No encontrada o sin permiso" Examples.d0 "caro" "A-2" Examples.invoices
  = NotFound "No encontrada o sin permiso"
  /\ get_one fst snd "No encontrada o sin permiso" Examples.d0 "caro" "A-2" Examples.invoices
     = get_one fst snd "No encontrada o sin permiso" Examples.d0 "caro" "A-2" [].
Proof.
  apply (proj2 (proj2 (detail_hides_existence fst snd "No encontrada o sin permiso"
                         Examples.d0 "caro" "A-2" Examples.invoices))).
  intros r Hr Hid H. apply (visible_iff snd Examples.d0 "caro" r) in H.
  simpl in Hr. destruct Hr as [Hr|[Hr|[Hr|[Hr|[]]]]]; subst r;
    try discriminate Hid; vm_compute in H; discriminate.
Defined.

(** ** The fund shortcut against the allocations array *)

(** X12: when a body carries both [fund_id] and [allocations], POST and
    PATCH settle it in opposite ways. POST takes the array whenever it has
    an element and never looks at [fund_id]; PATCH takes [fund_id]
    whenever it is given and never looks at the array, not even to reject
    an empty one or one whose ratios do not sum to 1. *)
Theorem shortcut_precedence :
  forall (sch : schema) (u : UserId) (txId : TxId) (d : db) (seq : nat),
    (forall input a l f,
       in_allocations input = Some (a :: l) ->
       serve (post_transaction sch u (ParseSuccess input)) d seq
       = serve (post_transaction sch u
                  (ParseSuccess
                     {| in_account_id := in_account_id input;
                        in_tx_date := in_tx_date input;
                        in_description := in_description input;
                        in_amount := in_amount input;
                        in_type := in_type input;
                        in_fund_id := f;
                        in_category_id := in_category_id input;
                        in_allocations := in_allocations input |})) d seq)
    /\ (forall body f allocs,
          pa_fund_id body = Some f -> f <> EmptyString ->
          serve (patch_transaction sch u txId (ParseSuccess body)) d seq
          = serve (patch_transaction sch u txId
                     (ParseSuccess
                        {| pa_account_id := pa_account_id body;
                           pa_tx_date := pa_tx_date body;
                           pa_description := pa_description body;
                           pa_amount := pa_amount body;
                           pa_type := pa_type body;
                           pa_fund_id := pa_fund_id body;
                           pa_category_id := pa_category_id body;
                           pa_allocations := allocs |})) d seq
          /\ prepare_allocations body = Return (Some [{| fund_id := f; ratio := 1%float |}])).
Proof.
  intros sch u txId d seq. split.
  - intros input a l f H. unfold post_transaction, build_allocations.
    cbn [in_account_id in_tx_date in_description in_amount in_type in_fund_id
         in_category_id in_allocations].
    rewrite H. reflexivity.
  - intros body f allocs Hf Hne. unfold patch_transaction, prepare_allocations, patch_fields.
    cbn [pa_account_id pa_tx_date pa_description pa_amount pa_type pa_fund_id
         pa_category_id pa_allocations].
    rewrite Hf. destruct f as [|c f']; [contradiction|]. split; reflexivity.
Qed.

Lemma shortcut_precedence_witness :
  serve (patch_transaction Examples.sch "beto" "tx-old"
           (ParseSuccess (Examples.patch_body (Some "f1") (Some Examples.thirds))))
        Examples.d0 7
  = serve (patch_transaction Examples.sch "beto" "tx-old"
             (ParseSuccess (Examples.patch_body (Some "f1") None)))
          Examples.d0 7
  /\ serve (post_transaction Examples.sch "beto"
              (ParseSuccess (Examples.post_input (Some "f2") (Some Examples.halves))))
           Examples.d0 7
     = serve (post_transaction Examples.sch "beto"
                (ParseSuccess (Examples.post_input None (Some Examples.halves))))
             Examples.d0 7.
Proof.
  split.
  - refine (proj1 (proj2 (shortcut_precedence Examples.sch "beto" "tx-old" Examples.d0 7)
                     (Examples.patch_body (Some "f1") (Some Examples.thirds))
                     "f1" None eq_refl _)).
    discriminate.
  - exact (proj1 (shortcut_precedence Examples.sch "beto" "tx-old" Examples.d0 7)
             (Examples.post_input (Some "f2") (Some Examples.halves))
             _ _ None eq_refl).
Defined.

(** ** db.ts: withUser *)

(** X13: [withUser] around code that stays inside the transaction it
    opens. What the code returns is returned and what it throws is thrown
    again, unchanged. If it returns, every change it made is committed and
    the session reads begin, set_current_user, the code's statements,
    commit; if it throws, the database is exactly what it was before the
    request and the session ends with rollback. *)
Theorem withUser_commits_or_rolls_back :
  forall (A : Type) (P : stmt -> bool) (E : js_error -> Prop)
         (u : UserId) (fn : M A) (d : db) (seq : nat),
    obeys P E fn ->
    match serve (withUser u fn) d seq with
    | (Return a, d', l) =>
        fst (fn (opened d seq u)) = Return a
        /\ d' = working (snd (fn (opened d seq u)))
        /\ exists m, l = [Begin; SetCurrentUser u] ++ m ++ [Commit]
                     /\ forallb P m = true
    | (Throw e, d', l) =>
        fst (fn (opened d seq u)) = Throw e
        /\ E e
        /\ d' = d
        /\ exists m, l = [Begin; SetCurrentUser u] ++ m ++ [Rollback]
                     /\ forallb P m = true
    end.
Proof.
  intros A P E u fn d seq H. unfold serve.
  destruct (withUser_fresh A P E u fn d seq H) as [m [Hm [_ Hrun]]].
  destruct (fst (fn (opened d seq u))) as [a|e] eqn:Ef.
  - rewrite Hrun. cbn [committed log]. repeat split; auto. exists m. auto.
  - destruct Hrun as [He Hrun]. rewrite Hrun. cbn [committed log].
    repeat split; auto. exists m. auto.
Qed.

Lemma withUser_commits_or_rolls_back_witness :
  fst (serve (withUser "beto" (assertWriteForFunds "beto" ["f1"; "f2"])) Examples.d0 7)
  = (Throw forbidden, Examples.d0).
Proof.
  pose proof (withUser_commits_or_rolls_back unit is_scope_query (fun e => e = forbidden)
                "beto" (assertWriteForFunds "beto" ["f1"; "f2"]) Examples.d0 7
                (assertWriteForFunds_obeys "beto" ["f1"; "f2"])) as H.
  destruct (serve (withUser "beto" (assertWriteForFunds "beto" ["f1"; "f2"])) Examples.d0 7)
    as [[[a|e] d'] l].
  - destruct H as [H _]. vm_compute in H. discriminate.
  - destruct H as [_ [He [Hd _]]]. cbn [fst]. now rewrite He, Hd.
Defined.
